(** * MeshRevision: node collapsing, element reduction and subdivision

    A shallow embedding of [MeshLib::MeshRevision] (MeshRevision.cpp) and of
    the duplication helpers of DuplicateMeshComponents.cpp, followed by the
    properties of the revision core that the specification states.

    Conventions of the embedding:
    - a [Node*] is the position of the node in the vector that owns it, so
      a vector of nodes is a store and a pointer is an index into it;
    - [std::size_t] values (node identifiers, vector positions) are [nat];
    - [unsigned] values (local node indices, counts, dimensions) are [N], so
      that [std::numeric_limits<unsigned>::max()] is an ordinary number;
    - [double] coordinates and tolerances are taken on the integer lattice
      [Z]; the arithmetic of the source (differences, squares, sums,
      comparisons) is exact there as long as its results stay below 2^53,
      which [binary64_exact] ensures;
    - [ERR (...)] only writes a log line; it has no influence on the control
      flow and is left out. *)

From Stdlib Require Import ZArith NArith Lia List Bool String.
From stdpp Require Import base list.
Import ListNotations.

Local Open Scope nat_scope.

(** ** Nodes *)

Definition Point : Type := Z * Z * Z.

Record Node := mkNode { getCoords : Point; getID : nat }.

Definition setID (id : nat) (nd : Node) : Node := mkNode (getCoords nd) id.

#[global] Instance Node_inhabited : Inhabited Node := populate (mkNode (0, 0, 0)%Z 0).

(** Modelled from the spec: [MathLib::sqrDist] is not among the sources; it is
    the "squared Euclidean distance" of section 4.1. *)
Definition sqrDist (p q : Point) : Z :=
  let '(px, py, pz) := p in
  let '(qx, qy, qz) := q in
  ((px - qx) * (px - qx) + (py - qy) * (py - qy) + (pz - qz) * (pz - qz))%Z.

(** ** The spatial index

    [GeoLib::Grid] is not among the sources.  What [collapseNodeIndeces]
    needs from it is one query,
    [getPntVecsOfGridCellsIntersectingCube (center, half_len, vectors)], which
    yields vectors of node pointers.  A grid is therefore a function from the
    node vector it was built over, the centre and the edge length of the cube
    (the source passes [half_eps = eps / 2.0]; the embedding passes [eps], the
    doubled half length, and stays inside [Z]) to a list of cell vectors. *)
Definition GridQuery : Type := list Node -> Point -> Z -> list (list nat).

Definition in_cube (two_half_len : Z) (c p : Point) : bool :=
  let '(cx, cy, cz) := c in
  let '(px, py, pz) := p in
  ((2 * Z.abs (px - cx) <=? two_half_len) &&
   (2 * Z.abs (py - cy) <=? two_half_len) &&
   (2 * Z.abs (pz - cz) <=? two_half_len))%Z.

(** Modelled from the spec: [GeoLib::Grid] is missing; section 4.1 calls the
    candidates of node k the nodes "within a half-eps cube around k".  The
    query answers with one vector that holds, in storage order, the nodes
    lying in that closed cube.  The grid of the source answers with whole
    cells, which may hold nodes outside of the cube as well: this is the
    least answer that such a grid can give. *)
Definition cubeGrid : GridQuery :=
  fun nodes center two_half_len =>
    [ filter (fun t => Is_true (in_cube two_half_len center (getCoords (nodes !!! t))))
             (seq 0 (length nodes)) ].

(** A grid with a single cell: every query answers with all nodes. *)
Definition singleCellGrid : GridQuery :=
  fun nodes _ _ => [ seq 0 (length nodes) ].

(** Modelled from the spec: [GeoLib::Grid] is missing; section 4.1 has it as
    "a uniform spatial grid over all node coordinates" whose resolution is a
    performance parameter.  The cells are the half-open cubes of edge [h]
    with their corners at the multiples of [h].  The query answers with one
    vector for every cell that holds a node and meets the closed cube, and
    the vector of a cell holds all nodes of the cell in storage order. *)
Definition cell_of (h : Z) (p : Point) : Point :=
  let '(x, y, z) := p in (x / h, y / h, z / h)%Z.

Definition Point_eqb (p q : Point) : bool :=
  let '(px, py, pz) := p in
  let '(qx, qy, qz) := q in
  ((px =? qx) && (py =? qy) && (pz =? qz))%Z.

Definition cell_meets_cube (h two_half_len : Z) (center cell : Point) : bool :=
  let meets c k :=
    ((2 * (h * k) <=? 2 * c + two_half_len)
     && (2 * c - two_half_len <? 2 * (h * (k + 1))))%Z in
  let '(cx, cy, cz) := center in
  let '(kx, ky, kz) := cell in
  meets cx kx && meets cy ky && meets cz kz.

Definition uniformGrid (h : Z) : GridQuery :=
  fun nodes center two_half_len =>
    let cell t := cell_of h (getCoords (nodes !!! t)) in
    let all := seq 0 (length nodes) in
    let first_of_cell t :=
      forallb (fun u => negb (Point_eqb (cell u) (cell t))) (seq 0 t) in
    map (fun f => List.filter (fun t => Point_eqb (cell t) (cell f)) all)
        (List.filter
           (fun f => first_of_cell f && cell_meets_cube h two_half_len center (cell f))
           all).

(** ** MeshRevision::collapseNodeIndeces *)

Section Collapse.

Variable grid : GridQuery.

(** The body of the innermost loop, lines 167-179: one test node. *)
Definition collapse_test (nodes : list Node) (sqr_eps : Z) (node : Node)
    (id_map : list nat) (test : nat) : list nat :=
  let test_node := nodes !!! test in
  if (id_map !!! getID node) =? (id_map !!! getID test_node) then id_map
  else if negb (getID test_node =? (id_map !!! getID test_node)) then id_map
  else if (sqrDist (getCoords node) (getCoords test_node) <? sqr_eps)%Z
       then <[ getID test_node := getID node ]> id_map
       else id_map.

(** The body of the loop over k, lines 153-181. *)
Definition collapse_node (nodes : list Node) (eps : Z)
    (id_map : list nat) (k : nat) : list nat :=
  let node := nodes !!! k in
  if negb (getID node =? k) then id_map
  else
    let sqr_eps := (eps * eps)%Z in
    let node_vectors := grid nodes (getCoords node) eps in
    fold_left
      (fun m cell_vector => fold_left (collapse_test nodes sqr_eps node) cell_vector m)
      node_vectors id_map.

Definition collapseNodeIndeces (nodes : list Node) (eps : Z) : list nat :=
  let nNodes := length nodes in
  let id_map := seq 0 nNodes in
  fold_left (collapse_node nodes eps) (seq 0 nNodes) id_map.

(** MeshRevision::getNCollapsableNodes.  The counter is an [unsigned]; it is
    bounded by the number of nodes and is kept as a [nat]. *)
Definition getNCollapsableNodes (nodes : list Node) (eps : Z) : nat :=
  let id_map := collapseNodeIndeces nodes eps in
  let nNodes := length id_map in
  fold_left (fun count i => if negb (i =? (id_map !!! i)) then S count else count)
            (seq 0 nNodes) 0.

End Collapse.

(** ** MeshRevision::constructNewNodesArray

    The function both builds the new node vector and overwrites the
    identifiers of the nodes of the mesh; the state is the pair of the two
    vectors. *)
Definition construct_step (id_map : list nat)
    (st : list Node * list Node) (k : nat) : list Node * list Node :=
  let '(nodes, new_nodes) := st in
  let nd := nodes !!! k in
  if getID nd =? (id_map !!! k) then
    let id := length new_nodes in
    (<[ k := setID id nd ]> nodes, new_nodes ++ [mkNode (getCoords nd) id])
  else
    (<[ k := setID (getID (nodes !!! (id_map !!! k))) nd ]> nodes, new_nodes).

Definition constructNewNodesArray (id_map : list nat) (nodes : list Node)
    : list Node * list Node :=
  fold_left (construct_step id_map) (seq 0 (length nodes)) (nodes, []).

(** MeshRevision::resetNodeIDs *)
Definition resetNodeIDs (nodes : list Node) : list Node :=
  imap (fun i nd => setID i nd) nodes.

(** copyNodeVector of DuplicateMeshComponents.cpp *)
Definition copyNodeVector (nodes : list Node) : list Node :=
  imap (fun k nd => mkNode (getCoords nd) k) nodes.

(** ** Elements *)

Abbreviation unsigned := N.

(** [std::numeric_limits<unsigned>::max()], the sentinel of the lookup tables. *)
Definition numeric_limits_max : unsigned := 4294967295%N.

(** Modelled from the spec: the enumeration [MeshElemType] is not among the
    sources; section 3 lists the seven type tags, the same that
    MeshRevision.cpp and DuplicateMeshComponents.cpp name. *)
Inductive MeshElemType :=
  LINE | TRIANGLE | QUAD | TETRAHEDRON | HEXAHEDRON | PYRAMID | PRISM.

Definition MeshElemType_eqb (a b : MeshElemType) : bool :=
  match a, b with
  | LINE, LINE | TRIANGLE, TRIANGLE | QUAD, QUAD | TETRAHEDRON, TETRAHEDRON
  | HEXAHEDRON, HEXAHEDRON | PYRAMID, PYRAMID | PRISM, PRISM => true
  | _, _ => false
  end.

(** An element: its type tag, its node pointers in local order and its
    material value. *)
Record Element := mkElement
  { getGeomType : MeshElemType; elemNodes : list nat; getValue : unsigned }.

Definition Line (ns : list nat) (value : unsigned) := mkElement LINE ns value.
Definition Tri (ns : list nat) (value : unsigned) := mkElement TRIANGLE ns value.
Definition Quad (ns : list nat) (value : unsigned) := mkElement QUAD ns value.
Definition Tet (ns : list nat) (value : unsigned) := mkElement TETRAHEDRON ns value.
Definition Hex (ns : list nat) (value : unsigned) := mkElement HEXAHEDRON ns value.
Definition Pyramid (ns : list nat) (value : unsigned) := mkElement PYRAMID ns value.
Definition Prism (ns : list nat) (value : unsigned) := mkElement PRISM ns value.

(** Modelled from the spec: the element classes other than the triangle and
    the prism are not among the sources; number of base nodes and dimension
    of the seven element types of section 3. *)
Definition getNNodes (e : Element) : unsigned :=
  match getGeomType e with
  | LINE => 2 | TRIANGLE => 3 | QUAD => 4 | TETRAHEDRON => 4
  | HEXAHEDRON => 8 | PYRAMID => 5 | PRISM => 6
  end%N.

Definition getDimension (e : Element) : unsigned :=
  match getGeomType e with
  | LINE => 1 | TRIANGLE | QUAD => 2
  | TETRAHEDRON | HEXAHEDRON | PYRAMID | PRISM => 3
  end%N.

(** Unchecked array access with an [unsigned] index.  Reading beyond the
    array is undefined in the source; the embedding then reads [d]. *)
Fixpoint at_index {A : Type} (d : A) (l : list A) (i : unsigned) : A :=
  match l with
  | [] => d
  | x :: l' => if (i =? 0)%N then x else at_index d l' (N.pred i)
  end.

(** [rangeN a b] is the run of a loop [for (unsigned i = a; i < b; ++i)]. *)
Definition rangeN (a b : unsigned) : list unsigned :=
  map N.of_nat (seq (N.to_nat a) (N.to_nat b - N.to_nat a)).

(** [first_some f l]: the result of the first iteration that leaves the loop. *)
Fixpoint first_some {A B : Type} (f : A -> option B) (l : list A) : option B :=
  match l with
  | [] => None
  | x :: l' => match f x with Some y => Some y | None => first_some f l' end
  end.

(** [element->getNode(i)] and [element->getNode(i)->getID()], the latter read
    in the store [st] that the pointers of the element refer to. *)
Definition getNode (e : Element) (i : unsigned) : nat := at_index 0 (elemNodes e) i.

Definition nodeID (st : list Node) (e : Element) (i : unsigned) : nat :=
  getID (st !!! getNode e i).

(** [nodes[id]] for a vector of node pointers: the pointer of slot [id]. *)
Definition ptr (nodes : list Node) (id : nat) : nat := id.

(** [nodes[element->getNode(i)->getID()]] for each local index of [idx]. *)
Definition nodes_at (st : list Node) (e : Element) (nodes : list Node)
    (idx : list unsigned) : list nat :=
  map (fun i => ptr nodes (nodeID st e i)) idx.

(** Modelled from the spec: [Element::getNodeIDinElement] is not among the
    sources (Element.cpp); by its name and its use in [reduceHex] it is the
    local index under which the element holds the given node, the sentinel if
    it holds it nowhere. *)
Definition getNodeIDinElement (e : Element) (node : nat) : unsigned :=
  match find (fun i => getNode e i =? node) (rangeN 0 (getNNodes e)) with
  | Some i => i
  | None => numeric_limits_max
  end.

(** Modelled from the spec: [ElementErrorCode] is not among the sources;
    section 6 asks for a flagged error code that tells zero volume from
    non-coplanar and non-convex; TemplatePrism-impl.h also sets [NodeOrder]. *)
Record ElementErrorCode := mkErrorCode
  { ZeroVolume : bool; NonCoplanar : bool; NonConvex : bool; NodeOrder : bool }.

Definition none (e : ElementErrorCode) : bool :=
  negb (ZeroVolume e || NonCoplanar e || NonConvex e || NodeOrder e).

(** What the unit takes from collaborators that are not among the sources:
    the coplanarity test of GeoLib, the validation of an element (a virtual
    method, evaluated on the coordinates found in the store of the element),
    and the face and edge tables of the hexahedron class. *)
Class ElementGeometry := {
  isCoplanar : Point -> Point -> Point -> Point -> bool;
  validate : list Node -> Element -> ElementErrorCode;
  hex_face_nodes : unsigned -> unsigned -> unsigned;
  hex_edge_nodes : list (unsigned * unsigned)
}.

(** ** The lookup tables *)

Definition _hex_diametral_nodes : list unsigned := [6; 7; 4; 5; 2; 3; 0; 1]%N.

Definition lutHexDiametralNode (id : unsigned) : unsigned :=
  at_index 0%N _hex_diametral_nodes id.

Definition array4 : Type := unsigned * unsigned * unsigned * unsigned.

Definition arr (a : array4) (i : unsigned) : unsigned :=
  let '(a0, a1, a2, a3) := a in at_index 0%N [a0; a1; a2; a3] i.

(** [nodes] is a local array that the function does not initialise: its
    content on entry is indeterminate, and is an argument of the embedding. *)
Definition lutHexCuttingQuadNodes (nodes : array4) (id1 id2 : unsigned) : array4 :=
  let ids a b := ((id1 =? a) && (id2 =? b))%N in
  (if      ids 0 1 then (3, 2, 5, 4)
   else if ids 1 2 then (0, 3, 6, 5)
   else if ids 2 3 then (1, 0, 7, 6)
   else if ids 3 0 then (2, 1, 4, 7)
   else if ids 4 5 then (0, 1, 6, 7)
   else if ids 5 6 then (1, 2, 7, 4)
   else if ids 6 7 then (2, 3, 4, 5)
   else if ids 7 4 then (3, 0, 5, 6)
   else if ids 0 4 then (3, 7, 5, 1)
   else if ids 1 5 then (0, 4, 6, 2)
   else if ids 2 6 then (1, 5, 7, 3)
   else if ids 3 7 then (2, 6, 4, 0)

   else if ids 1 0 then (2, 3, 4, 5)
   else if ids 2 1 then (3, 0, 5, 6)
   else if ids 3 2 then (0, 1, 6, 7)
   else if ids 0 3 then (1, 2, 7, 4)
   else if ids 5 4 then (1, 0, 7, 6)
   else if ids 6 5 then (2, 1, 4, 7)
   else if ids 7 6 then (3, 2, 5, 4)
   else if ids 4 7 then (0, 3, 6, 5)
   else if ids 4 0 then (7, 3, 1, 5)
   else if ids 5 1 then (4, 0, 2, 6)
   else if ids 6 2 then (5, 1, 3, 7)
   else if ids 7 3 then (6, 2, 0, 4)
   else nodes)%N.

Definition lutHexBackNodes (i j k l : unsigned) : unsigned * unsigned :=
  let back := (numeric_limits_max, numeric_limits_max) in
  (* collapsed edges are *not* connected *)
  (if      lutHexDiametralNode i =? k then (i, lutHexDiametralNode l)
   else if lutHexDiametralNode i =? l then (i, lutHexDiametralNode k)
   else if lutHexDiametralNode j =? k then (j, lutHexDiametralNode l)
   else if lutHexDiametralNode j =? l then (j, lutHexDiametralNode k)
   (* collapsed edges *are* connected *)
   else if i =? k then (lutHexDiametralNode l, j)
   else if i =? l then (lutHexDiametralNode k, j)
   else if j =? k then (lutHexDiametralNode l, i)
   else if j =? l then (lutHexDiametralNode k, i)
   else back)%N.

Definition lutPrismThirdNode (id1 id2 : unsigned) : unsigned :=
  let ids a b := ((id1 =? a) && (id2 =? b))%N in
  (if      ids 0 1 || ids 1 2 then 2
   else if ids 1 2 || ids 2 1 then 0
   else if ids 0 2 || ids 2 0 then 1
   else if ids 3 4 || ids 4 3 then 5
   else if ids 4 5 || ids 5 4 then 3
   else if ids 3 5 || ids 5 3 then 4
   else numeric_limits_max)%N.

(** ** Results of calls that may stop the program

    [constructLine] and [constructTri] end with an [assert]; a failed
    assertion (or the dereference of a null pointer) ends the run. *)
Inductive outcome (A : Type) : Type :=
  | Ok (a : A)
  | Aborted.

Arguments Ok {A} a.
Arguments Aborted {A}.

#[global] Instance outcome_ret : MRet outcome := fun A a => Ok a.

#[global] Instance outcome_bind : MBind outcome := fun A B k c =>
  match c with
  | Ok a => k a
  | Aborted => Aborted
  end.

(** The index pairs visited by
    [for (k = a; k < n - 1; ++k) for (l = k + 1; l < n; ++l)]. *)
Definition pairs_from (a n : unsigned) : list (unsigned * unsigned) :=
  flat_map (fun k => map (fun l => (k, l)) (rangeN (k + 1) n)) (rangeN a (n - 1)).

Definition pairs (n : unsigned) : list (unsigned * unsigned) := pairs_from 0 n.

(** [x + offset] for an [unsigned x] and an [int offset]. *)
Definition add_offset (x : unsigned) (offset : Z) : unsigned :=
  Z.to_N ((Z.of_N x + offset) mod 2 ^ 32).

(** Exchange of two slots of an array of four pointers. *)
Definition swap (l : list nat) (i j : unsigned) : list nat :=
  let a := at_index 0 l i in
  let b := at_index 0 l j in
  <[ N.to_nat j := a ]> (<[ N.to_nat i := b ]> l).

(** Modelled from the spec: MeshRevision.h, which holds the default argument
    of [constructFourNodeElement], is not among the sources; the five-node
    case of [reduceHex] calls it without a floor and section 4.4 has that case
    always yield its two tetrahedra, as the floor 1 does. *)
Definition default_min_elem_dim : unsigned := 1%N.

Section Revision.

Context {geometry : ElementGeometry}.

(** Content of the local array of [lutHexCuttingQuadNodes] on entry. *)
Variable indeterminate : array4.

Definition coordsOf (st : list Node) (p : nat) : Point := getCoords (st !!! p).

(** MeshRevision::getNUniqueNodes *)
Definition getNUniqueNodes (st : list Node) (element : Element) : unsigned :=
  let nNodes := getNNodes element in
  fold_left
    (fun count i =>
       if existsb (fun j => nodeID st element i =? nodeID st element j)
                  (rangeN (i + 1) nNodes)
       then (count - 1)%N else count)
    (rangeN 0 (nNodes - 1)) nNodes.

(** *** Subdivision *)

Definition subdivideQuad (st : list Node) (quad : Element) (nodes : list Node)
    (new_elements : list Element) : unsigned * list Element :=
  let tri1_nodes := nodes_at st quad nodes [0; 1; 2]%N in
  let new_elements := new_elements ++ [Tri tri1_nodes (getValue quad)] in
  let tri2_nodes := nodes_at st quad nodes [0; 2; 3]%N in
  let new_elements := new_elements ++ [Tri tri2_nodes (getValue quad)] in
  (2%N, new_elements).

Definition subdividePyramid (st : list Node) (pyramid : Element) (nodes : list Node)
    (new_elements : list Element) : unsigned * list Element :=
  let tet1_nodes := nodes_at st pyramid nodes [0; 1; 2; 4]%N in
  let new_elements := new_elements ++ [Tet tet1_nodes (getValue pyramid)] in
  let tet2_nodes := nodes_at st pyramid nodes [0; 2; 3; 4]%N in
  let new_elements := new_elements ++ [Tet tet2_nodes (getValue pyramid)] in
  (2%N, new_elements).

Definition subdividePrism (st : list Node) (prism : Element) (nodes : list Node)
    (new_elements : list Element) : unsigned * list Element :=
  let tet1_nodes := nodes_at st prism nodes [0; 1; 2; 3]%N in
  let new_elements := new_elements ++ [Tet tet1_nodes (getValue prism)] in
  let tet2_nodes := nodes_at st prism nodes [3; 2; 4; 5]%N in
  let new_elements := new_elements ++ [Tet tet2_nodes (getValue prism)] in
  let tet3_nodes := nodes_at st prism nodes [2; 1; 3; 4]%N in
  let new_elements := new_elements ++ [Tet tet3_nodes (getValue prism)] in
  (3%N, new_elements).

(** The two temporary prisms hold nodes of the new vector, so their
    identifiers are read in [nodes]. *)
Definition subdivideHex (st : list Node) (hex : Element) (nodes : list Node)
    (new_elements : list Element) : unsigned * list Element :=
  let prism1 := Prism (nodes_at st hex nodes [0; 2; 1; 4; 6; 5]%N) (getValue hex) in
  let '(_, new_elements) := subdividePrism nodes prism1 nodes new_elements in
  let prism2 := Prism (nodes_at st hex nodes [4; 6; 7; 0; 2; 3]%N) (getValue hex) in
  let '(_, new_elements) := subdividePrism nodes prism2 nodes new_elements in
  (6%N, new_elements).

Definition subdivideElement (st : list Node) (element : Element) (nodes : list Node)
    (elements : list Element) : bool * list Element :=
  let '(n_new_elems, elements) :=
    match getGeomType element with
    | QUAD => subdivideQuad st element nodes elements
    | HEXAHEDRON => subdivideHex st element nodes elements
    | PYRAMID => subdividePyramid st element nodes elements
    | PRISM => subdividePrism st element nodes elements
    | _ => (0%N, elements)
    end in
  ((0 <? n_new_elems)%N, elements).

(** *** Construction of lines, triangles and four-node elements *)

Definition constructLine (st : list Node) (element : Element) (nodes : list Node)
    : outcome Element :=
  let line0 := ptr nodes (nodeID st element 0) in
  match find (fun i => negb (nodeID st element i =? nodeID st element 0))
             (rangeN 1 (getNNodes element)) with
  | Some i => Ok (Line [line0; ptr nodes (nodeID st element i)] (getValue element))
  | None => Aborted
  end.

Definition constructTri (st : list Node) (element : Element) (nodes : list Node)
    : outcome Element :=
  let tri0 := ptr nodes (nodeID st element 0) in
  let attempt i :=
    if negb (nodeID st element i =? getID (nodes !!! tri0)) then
      let tri1 := ptr nodes (nodeID st element i) in
      match find (fun j => negb (nodeID st element j =? getID (nodes !!! tri1)))
                 (rangeN (i + 1) (getNNodes element)) with
      | Some j => Some [tri0; tri1; ptr nodes (nodeID st element j)]
      | None => None
      end
    else None in
  match first_some attempt (rangeN 1 (getNNodes element)) with
  | Some tri_nodes => Ok (Tri tri_nodes (getValue element))
  | None => Aborted
  end.

(** The first loop of [constructFourNodeElement]: the new nodes of the
    first four identifiers of the element, in order of first occurrence.
    Slots that the loop does not reach stay uninitialised in the source;
    the list is then shorter than four. *)
Definition firstUniqueNodes (st : list Node) (element : Element) (nodes : list Node)
    : list nat :=
  fold_left
    (fun new_nodes i =>
       if 3 <? length new_nodes then new_nodes
       else if forallb (fun j => negb (nodeID st element i =? nodeID st element j))
                       (rangeN 0 i)
            then new_nodes ++ [ptr nodes (nodeID st element i)]
            else new_nodes)
    (rangeN 1 (getNNodes element))
    [ptr nodes (nodeID st element 0)].

(** The loop [for (i = 1; i < 3; ++i)]: the quadrilateral shares the array
    [new_nodes], so every exchange changes the element under validation. *)
Fixpoint reorderQuad (nodes : list Node) (value : unsigned) (is_ : list unsigned)
    (new_nodes : list nat) : Element :=
  match is_ with
  | [] => Quad new_nodes value
  | i :: rest =>
      if none (validate nodes (Quad new_nodes value)) then Quad new_nodes value
      else reorderQuad nodes value rest (swap new_nodes (i + 1) i)
  end.

(** [None] is the null pointer. *)
Definition constructFourNodeElement (st : list Node) (element : Element)
    (nodes : list Node) (min_elem_dim : unsigned) : option Element :=
  let new_nodes := firstUniqueNodes st element nodes in
  let pt i := coordsOf nodes (at_index 0 new_nodes i) in
  let isQuad := isCoplanar (pt 0%N) (pt 1%N) (pt 2%N) (pt 3%N) in
  if isQuad && (min_elem_dim <? 3)%N then
    Some (reorderQuad nodes (getValue element) (rangeN 1 3) new_nodes)
  else if negb isQuad then
    Some (Tet new_nodes (getValue element))
  else None.

Definition findPyramidTopNode (st : list Node) (element : Element)
    (base_node_ids : list nat) : unsigned :=
  match find (fun i => forallb (fun j => negb (nodeID st element i =? at_index 0 base_node_ids j))
                               (rangeN 0 4))
             (rangeN 0 (getNNodes element)) with
  | Some i => i
  | None => numeric_limits_max
  end.

(** *** Reduction *)

(** TemplatePrism-impl.h has [isEdge] as a search of the edge table; the
    hexahedron does the same over its own table. *)
Definition isEdge (idx1 idx2 : unsigned) : bool :=
  existsb (fun '(a, b) => ((a =? idx1) && (b =? idx2) || (b =? idx1) && (a =? idx2))%N)
          hex_edge_nodes.

(** [getFace] as in TemplatePrism-impl.h: a quadrilateral over the nodes of
    the element, with the default material value. *)
Definition getFace (org_elem : Element) (i : unsigned) : Element :=
  Quad (map (fun j => getNode org_elem (hex_face_nodes i j)) [0; 1; 2; 3]%N) 0%N.

Definition reducePrism (st : list Node) (org_elem : Element) (n_unique_nodes : unsigned)
    (nodes : list Node) (new_elements : list Element) (min_elem_dim : unsigned)
    : outcome (unsigned * list Element) :=
  let value := getValue org_elem in
  if (n_unique_nodes =? 5)%N then
    match find (fun '(i, j) => negb (i =? j)%N
                               && (nodeID st org_elem i =? nodeID st org_elem j))
               (pairs 6) with
    | Some (i, j) =>
        if (i mod 3 =? j mod 3)%N then
          (* non triangle edge collapsed *)
          let tet1_nodes :=
            nodes_at st org_elem nodes
              [(i + 1) mod 3; (i + 2) mod 3; i; (i + 1) mod 3 + 3]%N in
          let new_elements := new_elements ++ [Tet tet1_nodes value] in
          let tet2_nodes :=
            nodes_at st org_elem nodes
              [(i + 1) mod 3 + 3; (i + 2) mod 3; i; (i + 2) mod 3 + 3]%N in
          let new_elements := new_elements ++ [Tet tet2_nodes value] in
          Ok (2%N, new_elements)
        else
          (* triangle edge collapsed *)
          let offset := if (2 <? i)%N then (-3)%Z else 3%Z in
          let k := lutPrismThirdNode i j in
          if (k =? numeric_limits_max)%N then Ok (0%N, new_elements)
          else
            let tet1_nodes :=
              nodes_at st org_elem nodes
                [add_offset i offset; add_offset j offset; add_offset k offset; i] in
            let new_elements := new_elements ++ [Tet tet1_nodes value] in
            let l :=
              if isCoplanar (coordsOf st (getNode org_elem (add_offset i offset)))
                            (coordsOf st (getNode org_elem (add_offset k offset)))
                            (coordsOf st (getNode org_elem i))
                            (coordsOf st (getNode org_elem k))
              then j else i in
            let tet2_nodes :=
              nodes_at st org_elem nodes
                [add_offset l offset; add_offset k offset; i; k] in
            let new_elements := new_elements ++ [Tet tet2_nodes value] in
            Ok (2%N, new_elements)
    | None => Ok (1%N, new_elements)
    end
  else if (n_unique_nodes =? 4)%N then
    match constructFourNodeElement st org_elem nodes min_elem_dim with
    | Some elem => Ok (1%N, new_elements ++ [elem])
    | None => Ok (1%N, new_elements)
    end
  else if ((n_unique_nodes =? 3) && (min_elem_dim <? 3))%N then
    elem ← constructTri st org_elem nodes;
    Ok (1%N, new_elements ++ [elem])
  else if ((n_unique_nodes =? 2) && (min_elem_dim =? 1))%N then
    elem ← constructLine st org_elem nodes;
    Ok (1%N, new_elements ++ [elem])
  else Ok (1%N, new_elements).

Definition reducePyramid (st : list Node) (org_elem : Element) (n_unique_nodes : unsigned)
    (nodes : list Node) (new_elements : list Element) (min_elem_dim : unsigned)
    : outcome (list Element) :=
  if (n_unique_nodes =? 4)%N then
    match constructFourNodeElement st org_elem nodes min_elem_dim with
    | Some elem => Ok (new_elements ++ [elem])
    | None => Ok new_elements
    end
  else if ((n_unique_nodes =? 3) && (min_elem_dim <? 3))%N then
    elem ← constructTri st org_elem nodes;
    Ok (new_elements ++ [elem])
  else if ((n_unique_nodes =? 2) && (min_elem_dim =? 1))%N then
    elem ← constructLine st org_elem nodes;
    Ok (new_elements ++ [elem])
  else Ok new_elements.

(** The case of seven unique nodes: prism + pyramid. *)
Definition reduceHex7 (st : list Node) (org_elem : Element) (nodes : list Node)
    (new_elements : list Element) : unsigned * list Element :=
  match find (fun '(i, j) => nodeID st org_elem i =? nodeID st org_elem j) (pairs 8) with
  | Some (i, j) =>
      let base_nodes := lutHexCuttingQuadNodes indeterminate i j in
      let pyr_nodes :=
        nodes_at st org_elem nodes
          [arr base_nodes 0; arr base_nodes 1; arr base_nodes 2; arr base_nodes 3; i]%N in
      let new_elements := new_elements ++ [Pyramid pyr_nodes (getValue org_elem)] in
      let '(i, j) := if ((i <? 4) && negb (j <? 4))%N then (j, i) else (i, j) in
      let prism_nodes :=
        nodes_at st org_elem nodes
          [arr base_nodes 0; arr base_nodes 3; lutHexDiametralNode j;
           arr base_nodes 1; arr base_nodes 2; lutHexDiametralNode i]%N in
      let new_elements := new_elements ++ [Prism prism_nodes (getValue org_elem)] in
      (2%N, new_elements)
  | None => (0%N, new_elements)
  end.

(** The first loop of the case of six unique nodes, over the six faces: the
    result of the first face that leaves the function.  In the second
    branch the source fills [prism_nodes] and returns 1 without a
    [push_back]. *)
Definition reduceHex6_face (st : list Node) (org_elem : Element) (nodes : list Node)
    (new_elements : list Element) (i : unsigned) : option (unsigned * list Element) :=
  let face := getFace org_elem i in
  let fid k := nodeID st face k in
  let diam k :=
    ptr nodes (nodeID st org_elem
                 (lutHexDiametralNode (getNodeIDinElement org_elem (getNode face k)))) in
  let same k :=
    ptr nodes (nodeID st org_elem (getNodeIDinElement org_elem (getNode face k))) in
  if (fid 0%N =? fid 1%N) && (fid 2%N =? fid 3%N) then
    let prism_nodes :=
      [diam 0%N; diam 1%N; same 2%N; diam 2%N; diam 3%N; same 0%N] in
    Some (1%N, new_elements ++ [Prism prism_nodes (getValue org_elem)])
  else if (fid 0%N =? fid 3%N) && (fid 1%N =? fid 2%N) then
    Some (1%N, new_elements)
  else None.

(** The quadruples (i, j, k, l) of the second search of the case of six
    unique nodes, in the order of the four nested loops. *)
Definition collapsedEdgePairs (st : list Node) (org_elem : Element)
    : list (unsigned * unsigned * unsigned * unsigned) :=
  flat_map
    (fun '(i, j) =>
       if nodeID st org_elem i =? nodeID st org_elem j
       then map (fun '(k, l) => (i, j, k, l)) (pairs_from i 8)
       else [])
    (pairs 8).

Definition reduceHex6_split (st : list Node) (org_elem : Element) (nodes : list Node)
    (new_elements : list Element) (min_elem_dim : unsigned)
    : outcome (unsigned * list Element) :=
  match find (fun '(i, j, k, l) =>
                negb ((i =? k) && (j =? l))%N && isEdge i j && isEdge k l
                && (nodeID st org_elem k =? nodeID st org_elem l))
             (collapsedEdgePairs st org_elem) with
  | Some (i, j, k, l) =>
      let back := lutHexBackNodes i j k l in
      if ((back.1 =? numeric_limits_max) || (back.2 =? numeric_limits_max))%N
      then Ok (0%N, new_elements)
      else
        let cutting_plane := lutHexCuttingQuadNodes indeterminate back.1 back.2 in
        let pris1_nodes :=
          map (getNode org_elem)
            [back.1; arr cutting_plane 0; arr cutting_plane 3;
             back.2; arr cutting_plane 1; arr cutting_plane 2]%N in
        let prism1 := Prism pris1_nodes (getValue org_elem) in
        '(nNewElements, new_elements) ←
           reducePrism st prism1 5%N nodes new_elements min_elem_dim;
        let pris2_nodes :=
          map (getNode org_elem)
            [lutHexDiametralNode back.1; arr cutting_plane 0; arr cutting_plane 3;
             lutHexDiametralNode back.2; arr cutting_plane 1; arr cutting_plane 2]%N in
        let prism2 := Prism pris2_nodes (getValue org_elem) in
        '(n2, new_elements) ←
           reducePrism st prism2 5%N nodes new_elements min_elem_dim;
        Ok (((nNewElements + n2) mod 2 ^ 32)%N, new_elements)
  | None => Ok (0%N, new_elements)
  end.

(** The case of five unique nodes: two tetrahedra. *)
Definition reduceHex5 (st : list Node) (org_elem : Element) (nodes : list Node)
    (new_elements : list Element) : outcome (unsigned * list Element) :=
  match constructFourNodeElement st org_elem nodes default_min_elem_dim with
  | None => Aborted
  | Some tet1 =>
      let first_four_nodes :=
        map (fun i => getID (nodes !!! getNode tet1 i)) [0; 1; 2; 3]%N in
      let fifth_node := findPyramidTopNode st org_elem first_four_nodes in
      let ff i := ptr nodes (at_index 0 first_four_nodes i) in
      let tet_changed := MeshElemType_eqb (getGeomType tet1) QUAD in
      let new_elements :=
        if tet_changed
        then new_elements ++
               [Tet [ff 0%N; ff 1%N; ff 2%N; ptr nodes (nodeID st org_elem fifth_node)]
                    (getValue org_elem)]
        else new_elements ++ [tet1] in
      let tet2_nodes :=
        [ (if tet_changed then ff 0%N else ff 1%N); ff 2%N; ff 3%N;
          ptr nodes (nodeID st org_elem fifth_node) ] in
      Ok (2%N, new_elements ++ [Tet tet2_nodes (getValue org_elem)])
  end.

Definition reduceHex (st : list Node) (org_elem : Element) (n_unique_nodes : unsigned)
    (nodes : list Node) (new_elements : list Element) (min_elem_dim : unsigned)
    : outcome (unsigned * list Element) :=
  if (n_unique_nodes =? 7)%N then
    Ok (reduceHex7 st org_elem nodes new_elements)
  else if (n_unique_nodes =? 6)%N then
    match first_some (reduceHex6_face st org_elem nodes new_elements) (rangeN 0 6) with
    | Some r => Ok r
    | None => reduceHex6_split st org_elem nodes new_elements min_elem_dim
    end
  else if (n_unique_nodes =? 5)%N then
    reduceHex5 st org_elem nodes new_elements
  else if (n_unique_nodes =? 4)%N then
    match constructFourNodeElement st org_elem nodes min_elem_dim with
    | Some elem => Ok (1%N, new_elements ++ [elem])
    | None => Ok (0%N, new_elements)
    end
  else if ((n_unique_nodes =? 3) && (min_elem_dim <? 3))%N then
    elem ← constructTri st org_elem nodes;
    Ok (1%N, new_elements ++ [elem])
  else if (min_elem_dim =? 1)%N then
    elem ← constructLine st org_elem nodes;
    Ok (1%N, new_elements ++ [elem])
  else Ok (0%N, new_elements).

Definition reduceElement (st : list Node) (element : Element) (n_unique_nodes : unsigned)
    (nodes : list Node) (elements : list Element) (min_elem_dim : unsigned)
    : outcome (list Element) :=
  match getGeomType element with
  | TRIANGLE =>
      if (min_elem_dim =? 1)%N then
        line ← constructLine st element nodes; Ok (elements ++ [line])
      else Ok elements
  | QUAD | TETRAHEDRON =>
      if ((n_unique_nodes =? 3) && (min_elem_dim <? 3))%N then
        tri ← constructTri st element nodes; Ok (elements ++ [tri])
      else if (min_elem_dim =? 1)%N then
        line ← constructLine st element nodes; Ok (elements ++ [line])
      else Ok elements
  | HEXAHEDRON =>
      r ← reduceHex st element n_unique_nodes nodes elements min_elem_dim; Ok r.2
  | PYRAMID =>
      reducePyramid st element n_unique_nodes nodes elements min_elem_dim
  | PRISM =>
      r ← reducePrism st element n_unique_nodes nodes elements min_elem_dim; Ok r.2
  | LINE => Ok elements
  end.

(** *** Duplication (DuplicateMeshComponents.cpp) *)

(** The seven classes are told apart by the type tag; all of them go to the
    same template, which rebuilds the element over [nodes]. *)
Definition copyElement (st : list Node) (element : Element) (nodes : list Node)
    : Element :=
  mkElement (getGeomType element)
            (nodes_at st element nodes (rangeN 0 (getNNodes element)))
            (getValue element).

Definition copyElementVector (st : list Node) (elements : list Element)
    (nodes : list Node) : list Element :=
  map (fun e => copyElement st e nodes) elements.

(** *** The mesh and the three operations *)

Record Mesh := mkMesh
  { getName : string; getNodes : list Node; getElements : list Element }.

Definition getNElements (m : Mesh) : nat := length (getElements m).
Definition getNNodesOfMesh (m : Mesh) : nat := length (getNodes m).

Definition withNodes (m : Mesh) (nodes : list Node) : Mesh :=
  mkMesh (getName m) nodes (getElements m).

Variable grid : GridQuery.

(** MeshRevision::collapseNodes: the new mesh, and the mesh of the revision
    after the call. *)
Definition collapseNodes (_mesh : Mesh) (new_mesh_name : string) (eps : Z)
    : Mesh * Mesh :=
  let '(staged, new_nodes) :=
    constructNewNodesArray (collapseNodeIndeces grid (getNodes _mesh) eps)
                           (getNodes _mesh) in
  let new_elements := copyElementVector staged (getElements _mesh) new_nodes in
  let _mesh := withNodes _mesh (resetNodeIDs staged) in
  (mkMesh new_mesh_name new_nodes new_elements, _mesh).

(** How the loop over the elements ends: it runs to its end, it returns the
    null pointer after [cleanUp], or the program stops. *)
Inductive loop_exit :=
  | Finished (new_elements : list Element)
  | UnknownType
  | Stopped.

(** The loop of [simplifyMesh], lines 74-98. *)
Fixpoint simplifyElements (st : list Node) (nodes : list Node) (min_elem_dim : unsigned)
    (elements : list Element) (new_elements : list Element) : loop_exit :=
  match elements with
  | [] => Finished new_elements
  | elem :: rest =>
      let n_unique_nodes := getNUniqueNodes st elem in
      if ((n_unique_nodes =? getNNodes elem) && (min_elem_dim <=? getDimension elem))%N then
        let e := validate st elem in
        if NonCoplanar e then
          let '(subdivided, new_elements) := subdivideElement st elem nodes new_elements in
          if negb subdivided then UnknownType
          else simplifyElements st nodes min_elem_dim rest new_elements
        else
          simplifyElements st nodes min_elem_dim rest
                           (new_elements ++ [copyElement st elem nodes])
      else if ((n_unique_nodes <? getNNodes elem) && (1 <? n_unique_nodes))%N then
        match reduceElement st elem n_unique_nodes nodes new_elements min_elem_dim with
        | Ok new_elements => simplifyElements st nodes min_elem_dim rest new_elements
        | Aborted => Stopped
        end
      else
        (* ERR ("Something is wrong, more unique nodes than actual nodes") *)
        simplifyElements st nodes min_elem_dim rest new_elements
  end.

(** MeshRevision::simplifyMesh: the returned pointer ([None] is the null
    pointer) and the mesh of the revision after the call. *)
Definition simplifyMesh (_mesh : Mesh) (new_mesh_name : string) (eps : Z)
    (min_elem_dim : unsigned) : outcome (option Mesh * Mesh) :=
  if getNElements _mesh =? 0 then Ok (None, _mesh)
  else
    let '(staged, new_nodes) :=
      constructNewNodesArray (collapseNodeIndeces grid (getNodes _mesh) eps)
                             (getNodes _mesh) in
    match simplifyElements staged new_nodes min_elem_dim (getElements _mesh) [] with
    | UnknownType => Ok (None, withNodes _mesh (resetNodeIDs staged))
    | Stopped => Aborted
    | Finished new_elements =>
        let _mesh := withNodes _mesh (resetNodeIDs staged) in
        match new_elements with
        | _ :: _ => Ok (Some (mkMesh new_mesh_name new_nodes new_elements), _mesh)
        | [] => Ok (None, _mesh)
        end
    end.

(** The loop of [subdivideMesh], lines 117-131. *)
Fixpoint subdivideElements (st : list Node) (nodes : list Node)
    (elements : list Element) (new_elements : list Element) : loop_exit :=
  match elements with
  | [] => Finished new_elements
  | elem :: rest =>
      let e := validate st elem in
      if NonCoplanar e then
        let '(subdivided, new_elements) := subdivideElement st elem nodes new_elements in
        if negb subdivided then UnknownType
        else subdivideElements st nodes rest new_elements
      else
        subdivideElements st nodes rest (new_elements ++ [copyElement st elem nodes])
  end.

(** MeshRevision::subdivideMesh *)
Definition subdivideMesh (_mesh : Mesh) (new_mesh_name : string) : option Mesh :=
  if getNElements _mesh =? 0 then None
  else
    let new_nodes := copyNodeVector (getNodes _mesh) in
    match subdivideElements (getNodes _mesh) new_nodes (getElements _mesh) [] with
    | Finished (e :: new_elements) => Some (mkMesh new_mesh_name new_nodes (e :: new_elements))
    | _ => None
    end.

End Revision.

(** ** The collapse map in closed form

    For a mesh whose identifiers are the storage positions, the two skip
    rules of [collapseNodeIndeces] make the result a function of the relation
    "node s tests node t and finds it closer than eps" alone. *)

Definition dense_ids (nodes : list Node) : Prop :=
  map getID nodes = seq 0 (length nodes).

(** The test nodes of node k, over all returned cell vectors. *)
Definition candidates (grid : GridQuery) (nodes : list Node) (eps : Z) (k : nat) : list nat :=
  concat (grid nodes (getCoords (nodes !!! k)) eps).

Definition valid_candidates (grid : GridQuery) (nodes : list Node) (eps : Z) : Prop :=
  forall k t, k < length nodes -> t ∈ candidates grid nodes eps k -> t < length nodes.

Definition closer (nodes : list Node) (eps : Z) (k t : nat) : bool :=
  (sqrDist (getCoords (nodes !!! k)) (getCoords (nodes !!! t)) <? eps * eps)%Z.

(** The range in which the integers of the embedding are the doubles of the
    source: with coordinates up to 2^24 and a tolerance up to 2^26 in
    absolute value, every difference, square and sum of [sqrDist] and the
    square of the tolerance are integers below 2^53, which binary64 holds
    without rounding. *)
Definition binary64_exact (nodes : list Node) (eps : Z) : bool :=
  (Z.abs eps <=? 2 ^ 26)%Z
  && forallb (fun nd => let '(x, y, z) := getCoords nd in
                        ((Z.abs x <=? 2 ^ 24) && (Z.abs y <=? 2 ^ 24)
                         && (Z.abs z <=? 2 ^ 24))%Z)
             nodes.

(** What a grid may or may not do for the nodes of a mesh.  Of two nodes
    closer than eps, one is among the test nodes of the other. *)
Definition tests_close_pairs (grid : GridQuery) (nodes : list Node) (eps : Z) : Prop :=
  forall r t, r < length nodes -> t < length nodes -> r <> t ->
    closer nodes eps r t = true ->
    t ∈ candidates grid nodes eps r \/ r ∈ candidates grid nodes eps t.

(** A test node that is closer than eps has the node among its own test
    nodes. *)
Definition tests_both_ways (grid : GridQuery) (nodes : list Node) (eps : Z) : Prop :=
  forall s t, s < length nodes -> t < length nodes ->
    t ∈ candidates grid nodes eps s -> closer nodes eps s t = true ->
    s ∈ candidates grid nodes eps t.

(** The test nodes for eps1 are test nodes for eps2. *)
Definition tests_no_less (grid : GridQuery) (nodes : list Node) (eps1 eps2 : Z) : Prop :=
  forall s t, s < length nodes ->
    t ∈ candidates grid nodes eps1 s -> t ∈ candidates grid nodes eps2 s.

Section ClosedForm.

Variable cand : nat -> list nat.
Variable close : nat -> nat -> bool.

(** One test of the innermost loop and one round of the loop over k, on
    positions instead of nodes. *)
Definition test_at (k : nat) (id_map : list nat) (t : nat) : list nat :=
  if (id_map !!! k) =? (id_map !!! t) then id_map
  else if negb (t =? (id_map !!! t)) then id_map
  else if close k t then <[ t := k ]> id_map
  else id_map.

Definition round_at (id_map : list nat) (k : nat) : list nat :=
  fold_left (test_at k) (cand k) id_map.

(** [reaches s t]: t is another node, among the test nodes of s and closer
    than eps to it. *)
Definition reaches (s t : nat) : bool :=
  negb (s =? t) && existsb (Nat.eqb t) (cand s) && close s t.

(** [taken t s]: the round of t, the first node that reaches s, maps s onto t
    before the round of s. *)
Definition taken (t s : nat) : bool :=
  (t <? s) && reaches t s && forallb (fun u => negb (reaches u s)) (seq 0 t).

(** [grabs s t]: the round of s maps t onto s if t is still unmapped. *)
Definition grabs (s t : nat) : bool := reaches s t && negb (taken t s).

(** The map after the rounds of the nodes below [m]. *)
Definition target_after (m : nat) (t : nat) : nat :=
  match find (fun s => grabs s t) (seq 0 m) with
  | Some s => s
  | None => t
  end.

(** The map within round k, after the tests of the nodes of [p]. *)
Definition target_within (k : nat) (p : list nat) (t : nat) : nat :=
  match find (fun s => grabs s t) (seq 0 k) with
  | Some s => s
  | None => if existsb (Nat.eqb t) p && grabs k t then k else t
  end.

End ClosedForm.

Definition collapse_closed_form (grid : GridQuery) (nodes : list Node) (eps : Z) : list nat :=
  let n := length nodes in
  map (target_after (candidates grid nodes eps) (closer nodes eps) n) (seq 0 n).

(** Survivors: the nodes that the map leaves in place. *)
Definition survives (id_map : list nat) (k : nat) : Prop :=
  k < length id_map /\ id_map !!! k = k.

(** Idempotence of a map given as a vector. *)
Definition idempotent (id_map : list nat) : Prop :=
  forall k, k < length id_map -> id_map !!! (id_map !!! k) = id_map !!! k.


(** The nodes that a map leaves in place, in storage order. *)
Definition kept (id_map : list nat) (n : nat) : list nat :=
  List.filter (fun k => k =? (id_map !!! k)) (seq 0 n).

(** ** Reference notions for the lookup tables *)

(** The third node of a triangular face of the prism, as section 4.3 words
    it: the faces are {0,1,2} and {3,4,5}; the sentinel stands for every pair
    that is not a pair of distinct nodes of one of them. *)
Definition on_same_triangle (i j : unsigned) : bool :=
  ((i <? 6) && (j <? 6) && negb (i =? j) && (i / 3 =? j / 3))%N.

Definition third_of_triangle (i j : unsigned) : unsigned :=
  if on_same_triangle i j then (9 * (i / 3) + 3 - i - j)%N else numeric_limits_max.

(** The twelve edges of the hexahedron in the node numbering that
    [_hex_diametral_nodes] and [lutHexCuttingQuadNodes] use. *)
Definition hexEdges : list (unsigned * unsigned) :=
  [(0, 1); (1, 2); (2, 3); (0, 3); (4, 5); (5, 6); (6, 7); (4, 7);
   (0, 4); (1, 5); (2, 6); (3, 7)]%N.

Definition hexAdjacent (i j : unsigned) : bool :=
  existsb (fun '(a, b) => ((a =? i) && (b =? j) || (b =? i) && (a =? j))%N) hexEdges.

(** The six faces of the hexahedron in the same numbering. *)
Definition hexFaces : list (list unsigned) :=
  [[0; 3; 2; 1]; [0; 1; 5; 4]; [1; 2; 6; 5]; [2; 3; 7; 6]; [3; 0; 4; 7]; [4; 5; 6; 7]]%N.

(** ** The prism class (TemplatePrism-impl.h) *)

Module TemplatePrism.

Definition _face_nodes : list (list unsigned) :=
  [[0; 2; 1; 99]; (* Face 0 *)
   [0; 1; 4; 3];  (* Face 1 *)
   [1; 2; 5; 4];  (* Face 2 *)
   [2; 0; 3; 5];  (* Face 3 *)
   [3; 4; 5; 99]  (* Face 4 *)]%N.

Definition _edge_nodes : list (unsigned * unsigned) :=
  [(0, 1); (1, 2); (0, 2); (0, 3); (1, 4); (2, 5); (3, 4); (4, 5); (3, 5)]%N.

Definition _n_face_nodes : list unsigned := [3; 4; 4; 4; 3]%N.

Definition face_node (i j : unsigned) : unsigned :=
  at_index 0%N (at_index [] _face_nodes i) j.

(** The number of faces (the class header is not among the sources; the
    face tables and the array of neighbours have five entries). *)
Definition getNFaces : unsigned := 5%N.

Definition getNFaceNodes (i : unsigned) : unsigned :=
  if (i <? 5)%N then at_index 0%N _n_face_nodes i else 0%N.

(** [None] is the null pointer.  The face takes the default material value
    of the constructors of the triangle and the quadrilateral. *)
Definition getFace (prism : Element) (i : unsigned) : option Element :=
  if (i <? getNFaces)%N then
    let nFaceNodes := getNFaceNodes i in
    let nodes := map (fun j => getNode prism (face_node i j)) (rangeN 0 nFaceNodes) in
    if ((i =? 0) || (i =? 4))%N then Some (Tri nodes 0%N) else Some (Quad nodes 0%N)
  else None.

Definition isEdge (idx1 idx2 : unsigned) : bool :=
  existsb (fun '(a, b) => ((a =? idx1) && (b =? idx2) || (b =? idx1) && (a =? idx2))%N)
          _edge_nodes.

(** [nodes] is an array of three node pointers. *)
Definition identifyFace (prism : Element) (nodes : list nat) : unsigned :=
  let flag i :=
    fold_left
      (fun flag '(j, k) =>
         if negb (face_node i j =? 99)%N
            && (getNode prism (face_node i j) =? at_index 0 nodes k)
         then (flag + 1)%N else flag)
      (flat_map (fun j => map (fun k => (j, k)) (rangeN 0 3)) (rangeN 0 4)) 0%N in
  match find (fun i => (flag i =? 3)%N) (rangeN 0 5) with
  | Some i => i
  | None => numeric_limits_max
  end.

(** [error_code |= quad->validate()] *)
Definition merge (a b : ElementErrorCode) : ElementErrorCode :=
  mkErrorCode (ZeroVolume a || ZeroVolume b) (NonCoplanar a || NonCoplanar b)
              (NonConvex a || NonConvex b) (NodeOrder a || NodeOrder b).

Definition setNodeOrder (flag : bool) (a : ElementErrorCode) : ElementErrorCode :=
  mkErrorCode (ZeroVolume a) (NonCoplanar a) (NonConvex a) flag.

(** [validate]: the validation of the quadrilateral and the two tests of the
    element base class ([hasZeroVolume], [testElementNodeOrder]) are not
    among the sources and are arguments.  The [dynamic_cast] succeeds on a
    face that is a quadrilateral. *)
Definition validate (quad_validate : Element -> ElementErrorCode)
    (hasZeroVolume testElementNodeOrder : bool) (prism : Element) : ElementErrorCode :=
  let error_code := mkErrorCode hasZeroVolume false false false in
  let error_code :=
    fold_left
      (fun error_code i =>
         match getFace prism i with
         | Some face =>
             if MeshElemType_eqb (getGeomType face) QUAD
             then merge error_code (quad_validate face)
             else setNodeOrder true error_code
         | None => setNodeOrder true error_code
         end)
      (rangeN 1 4) error_code in
  setNodeOrder (negb testElementNodeOrder) error_code.

End TemplatePrism.

(** ** A geometry on the integer lattice

    An instance of the collaborators with exact tests, used to run the
    operations on concrete meshes. *)

Definition vsub (p q : Point) : Point :=
  let '(px, py, pz) := p in let '(qx, qy, qz) := q in (px - qx, py - qy, pz - qz)%Z.

Definition cross (u v : Point) : Point :=
  let '(ux, uy, uz) := u in let '(vx, vy, vz) := v in
  (uy * vz - uz * vy, uz * vx - ux * vz, ux * vy - uy * vx)%Z.

Definition dot (u v : Point) : Z :=
  let '(ux, uy, uz) := u in let '(vx, vy, vz) := v in (ux * vx + uy * vy + uz * vz)%Z.

Definition exactCoplanar (a b c d : Point) : bool :=
  (dot (vsub b a) (cross (vsub c a) (vsub d a)) =? 0)%Z.

(** The corners a, b, c, d of a planar quadrilateral turn the same way at
    every corner. *)
Definition convexOrder (a b c d : Point) : bool :=
  let n1 := cross (vsub b a) (vsub c b) in
  let n2 := cross (vsub c b) (vsub d c) in
  let n3 := cross (vsub d c) (vsub a d) in
  let n4 := cross (vsub a d) (vsub b a) in
  ((0 <? dot n1 n2) && (0 <? dot n1 n3) && (0 <? dot n1 n4))%Z.

Definition latticeValidateQuad (st : list Node) (e : Element) : ElementErrorCode :=
  let p i := getCoords (st !!! getNode e i) in
  let planar := exactCoplanar (p 0%N) (p 1%N) (p 2%N) (p 3%N) in
  mkErrorCode false (negb planar)
              (planar && negb (convexOrder (p 0%N) (p 1%N) (p 2%N) (p 3%N))) false.

(** A prism is validated as TemplatePrism-impl.h has it, through its three
    quadrilateral faces; its volume is taken to be nonzero and its node
    order to be right.  The other element types have no flag. *)
Definition latticeValidate (st : list Node) (e : Element) : ElementErrorCode :=
  match getGeomType e with
  | QUAD => latticeValidateQuad st e
  | PRISM => TemplatePrism.validate (latticeValidateQuad st) false true e
  | _ => mkErrorCode false false false false
  end.

Definition latticeGeometry : ElementGeometry :=
  {| isCoplanar := exactCoplanar;
     validate := latticeValidate;
     hex_face_nodes := fun i j => at_index 0%N (at_index [] hexFaces i) j;
     hex_edge_nodes := hexEdges |}.

(** ** Reference notions for the four-node constructor *)

(** The identifiers of a list in order of first occurrence. *)
Definition first_occurrences (ids : list nat) : list nat :=
  fold_left (fun acc x => if existsb (Nat.eqb x) acc then acc else acc ++ [x]) ids [].

(** The identifiers of the nodes of an element, in local order. *)
Definition elementIDs (st : list Node) (e : Element) : list nat :=
  map (nodeID st e) (rangeN 0 (getNNodes e)).

(** ** Concrete meshes *)

(** Three nodes on the space diagonal, each within the half-eps cube of the
    next for eps = 10, the outer two farther apart than eps. *)
Definition chainNodes : list Node :=
  [mkNode (0, 0, 0)%Z 0; mkNode (4, 4, 4)%Z 1; mkNode (8, 8, 8)%Z 2].

(** The same three points with the two outer ones stored first. *)
Definition forwardNodes : list Node :=
  [mkNode (0, 0, 0)%Z 0; mkNode (8, 8, 8)%Z 1; mkNode (4, 4, 4)%Z 2].

(** Two nodes closer than eps = 10, outside of each other's half-eps cube. *)
Definition nearNodes : list Node :=
  [mkNode (0, 0, 0)%Z 0; mkNode (6, 0, 0)%Z 1].

(** Three nodes in a row, one in each of three neighbouring cells of edge 10. *)
Definition rowNodes : list Node :=
  [mkNode (0, 0, 0)%Z 0; mkNode (10, 0, 0)%Z 1; mkNode (20, 0, 0)%Z 2].

(** Two nodes farther apart than eps = 10. *)
Definition farNodes : list Node :=
  [mkNode (0, 0, 0)%Z 0; mkNode (20, 0, 0)%Z 1].

(** A line whose two nodes coincide within eps = 1, and a triangle. *)
Definition lineAndTriangle : Mesh :=
  mkMesh "line_and_triangle"
    [mkNode (0, 0, 0)%Z 0; mkNode (0, 0, 0)%Z 1;
     mkNode (10, 0, 0)%Z 2; mkNode (20, 0, 0)%Z 3; mkNode (10, 10, 0)%Z 4]
    [Line [0; 1] 7%N; Tri [2; 3; 4] 8%N].

(** The unit cube scaled by 10 with the edges (0,1) and (3,2) of its bottom
    face collapsed: six unique nodes, and the bottom face [0; 3; 2; 1] has
    its node pairs (0,3) and (1,2) collapsed. *)
Definition hexNodes : list Node :=
  [mkNode (0, 0, 0)%Z 0; mkNode (0, 0, 0)%Z 1; mkNode (0, 10, 0)%Z 2; mkNode (0, 10, 0)%Z 3;
   mkNode (0, 0, 10)%Z 4; mkNode (10, 0, 10)%Z 5; mkNode (10, 10, 10)%Z 6;
   mkNode (0, 10, 10)%Z 7].

Definition wedgeHex : Element := Hex [0; 1; 2; 3; 4; 5; 6; 7] 3%N.

Definition wedgeMesh : Mesh := mkMesh "wedge" hexNodes [wedgeHex].

(** The same cube with the edges (0,3) and (1,2) of its bottom face
    collapsed: the bottom face has its node pairs (0,1) and (2,3) collapsed. *)
Definition hexNodes' : list Node :=
  [mkNode (0, 0, 0)%Z 0; mkNode (10, 0, 0)%Z 1; mkNode (10, 0, 0)%Z 2; mkNode (0, 0, 0)%Z 3;
   mkNode (0, 0, 10)%Z 4; mkNode (10, 0, 10)%Z 5; mkNode (10, 10, 10)%Z 6;
   mkNode (0, 10, 10)%Z 7].

(** The cube with corner 2 moved onto corner 0, the two ends of a diagonal
    of the bottom face: seven unique nodes. *)
Definition diagonalHexNodes : list Node :=
  [mkNode (0, 0, 0)%Z 0; mkNode (10, 0, 0)%Z 1; mkNode (0, 0, 0)%Z 2; mkNode (0, 10, 0)%Z 3;
   mkNode (0, 0, 10)%Z 4; mkNode (10, 0, 10)%Z 5; mkNode (10, 10, 10)%Z 6;
   mkNode (0, 10, 10)%Z 7].

Definition diagonalHexMesh : Mesh := mkMesh "diagonal" diagonalHexNodes [wedgeHex].

(** A square whose corners are listed across the diagonal, and a pyramid
    over it whose apex has collapsed onto the first corner. *)
Definition squareNodes : list Node :=
  [mkNode (0, 0, 0)%Z 0; mkNode (10, 10, 0)%Z 1; mkNode (10, 0, 0)%Z 2;
   mkNode (0, 10, 0)%Z 3].

Definition flatPyramid : Element := Pyramid [0; 1; 2; 3; 0] 5%N.


(** The store of a quadrilateral after [constructNewNodesArray], its corner
    2 collapsed onto the diametral corner 0, and the new node vector. *)
Definition diagonalQuadStaged : list Node :=
  [mkNode (0, 0, 0)%Z 0; mkNode (10, 0, 0)%Z 1; mkNode (0, 0, 0)%Z 0;
   mkNode (0, 10, 0)%Z 2].

Definition diagonalQuadNodes : list Node :=
  [mkNode (0, 0, 0)%Z 0; mkNode (10, 0, 0)%Z 1; mkNode (0, 10, 0)%Z 2].

(** ** Reference notions for the reduction of a hexahedron *)

(** The two tests of the face loop of [reduceHex]: the node pairs (0,1) and
    (2,3) of face i are collapsed; the node pairs (0,3) and (1,2) are. *)
Definition face_pairs_01_23 {geometry : ElementGeometry} (st : list Node)
    (org_elem : Element) (i : unsigned) : bool :=
  let face := getFace org_elem i in
  (nodeID st face 0%N =? nodeID st face 1%N) && (nodeID st face 2%N =? nodeID st face 3%N).

Definition face_pairs_03_12 {geometry : ElementGeometry} (st : list Node)
    (org_elem : Element) (i : unsigned) : bool :=
  let face := getFace org_elem i in
  (nodeID st face 0%N =? nodeID st face 3%N) && (nodeID st face 1%N =? nodeID st face 2%N).

(** The pointer that [simplifyMesh] returns, without the mesh of the
    revision. *)
Definition returnedMesh (r : outcome (option Mesh * Mesh)) : outcome (option Mesh) :=
  match r with
  | Ok (m, _) => Ok m
  | Aborted => Aborted
  end.

(** The mesh with another element vector. *)
Definition withElements (m : Mesh) (elements : list Element) : Mesh :=
  mkMesh (getName m) (getNodes m) elements.

(** The store that [simplifyMesh] reads the identifiers from: the nodes of
    the mesh after [constructNewNodesArray]. *)
Definition stagedNodes (grid : GridQuery) (_mesh : Mesh) (eps : Z) : list Node :=
  (constructNewNodesArray (collapseNodeIndeces grid (getNodes _mesh) eps) (getNodes _mesh)).1.

Definition newNodes (grid : GridQuery) (_mesh : Mesh) (eps : Z) : list Node :=
  (constructNewNodesArray (collapseNodeIndeces grid (getNodes _mesh) eps) (getNodes _mesh)).2.

(** ** Notions for the properties of the operations *)

(** An element of a mesh of n nodes: as many node pointers as its type has
    nodes, each of them the position of a node of the mesh. *)
Definition element_in_mesh (n : nat) (e : Element) : Prop :=
  length (elemNodes e) = N.to_nat (getNNodes e) /\ Forall (fun p => p < n) (elemNodes e).

(** The element types that [subdivideElement] has a rule for. *)
Definition subdividable (e : Element) : bool :=
  match getGeomType e with
  | QUAD | HEXAHEDRON | PYRAMID | PRISM => true
  | _ => false
  end.

(** A map none of whose entries points to a later node. *)
Definition backward (id_map : list nat) : Prop :=
  forall k, k < length id_map -> id_map !!! k <= k.

(** The elements that a call has appended to the output collection. *)
Definition appended (P : Element -> Prop) (before after : list Element) : Prop :=
  exists added, after = before ++ added /\ Forall P added.

(** The search of [TemplatePrism::identifyFace] on local indices instead of
    node pointers: the face whose table row holds the three indices. *)
Definition identifyFaceIndices (indices : list unsigned) : unsigned :=
  let flag i :=
    fold_left
      (fun flag '(j, k) =>
         if negb (TemplatePrism.face_node i j =? 99)%N
            && (TemplatePrism.face_node i j =? at_index 0%N indices k)%N
         then (flag + 1)%N else flag)
      (flat_map (fun j => map (fun k => (j, k)) (rangeN 0 3)) (rangeN 0 4)) 0%N in
  match find (fun i => (flag i =? 3)%N) (rangeN 0 5) with
  | Some i => i
  | None => numeric_limits_max
  end.

(** The two facts that are followed through the reduction: the material
    value of the source element, and a dimension that is not below the
    floor (as long as the floor is a dimension, that is, at most 3). *)
Definition conserved (value min_elem_dim : unsigned) (e : Element) : Prop :=
  getValue e = value /\ ((min_elem_dim <= 3)%N -> (min_elem_dim <= getDimension e)%N).

(** * Properties *)

(** ** Vectors given by a function of the position *)

Lemma lookup_total_map_seq (f : nat -> nat) (n i : nat) :
  i < n -> (map f (seq 0 n)) !!! i = f i.
Proof.
  intros Hi. apply list_lookup_total_correct.
  rewrite list_lookup_fmap, lookup_seq_lt by done. done.
Qed.

Lemma insert_map_seq (f g : nat -> nat) (n c v : nat) :
  c < n -> g c = v -> (forall t, t <> c -> g t = f t) ->
  <[ c := v ]> (map f (seq 0 n)) = map g (seq 0 n).
Proof.
  intros Hc Hv Hother. apply list_eq. intros i.
  destruct (decide (i = c)) as [->|Hne].
  - rewrite list_lookup_insert_eq by (rewrite length_map, length_seq; lia).
    rewrite list_lookup_fmap, lookup_seq_lt by done. simpl. by rewrite Hv.
  - rewrite list_lookup_insert_ne by done.
    rewrite !list_lookup_fmap. destruct (seq 0 n !! i) as [x|] eqn:Hx; simpl; [|done].
    apply lookup_seq in Hx as [-> _]. simpl. by rewrite Hother.
Qed.

Lemma map_seq_ext (f g : nat -> nat) (n : nat) :
  (forall t, t < n -> g t = f t) -> map f (seq 0 n) = map g (seq 0 n).
Proof.
  intros H. apply map_ext_in. intros t Ht. apply in_seq in Ht. symmetry. apply H. lia.
Qed.

Lemma find_snoc {A} (f : A -> bool) (l : list A) (x : A) :
  find f (l ++ [x]) =
  match find f l with Some y => Some y | None => if f x then Some x else None end.
Proof.
  induction l as [|y l IH]; simpl; [done|]. destruct (f y); [done|apply IH].
Qed.

Lemma find_seq_None (f : nat -> bool) (k : nat) :
  find f (seq 0 k) = None <-> forall u, u < k -> f u = false.
Proof.
  induction k as [|k IH].
  - simpl. split; [intros _ u Hu; lia|done].
  - rewrite seq_S, find_snoc. simpl. destruct (find f (seq 0 k)) as [y|] eqn:Hf.
    + split; [done|]. intros H. destruct IH as [_ IH].
      discriminate IH. intros u Hu. apply H. lia.
    + destruct IH as [IH _]. specialize (IH eq_refl).
      destruct (f k) eqn:Hk; split; try done.
      * intros H. rewrite H in Hk by lia. done.
      * intros _ u Hu. destruct (decide (u = k)) as [->|]; [done|apply IH; lia].
Qed.

Lemma find_seq_Some (f : nat -> bool) (k c : nat) :
  find f (seq 0 k) = Some c <->
  c < k /\ f c = true /\ forall u, u < c -> f u = false.
Proof.
  revert c. induction k as [|k IH]; intros c.
  - simpl. split; [done|]. intros [? _]. lia.
  - rewrite seq_S, find_snoc. simpl. destruct (find f (seq 0 k)) as [y|] eqn:Hf.
    + destruct (proj1 (IH y) eq_refl) as (Hy1 & Hy2 & Hy3). split.
      * intros [= ->]. repeat split; [lia|done..].
      * intros (Hc & Hfc & Hbelow). f_equal.
        destruct (Nat.lt_trichotomy y c) as [Hlt|[->|Hgt]]; [|done|].
        -- rewrite Hbelow in Hy2 by done. done.
        -- rewrite Hy3 in Hfc by done. done.
    + pose proof (proj1 (find_seq_None f k) Hf) as Hf'. clear Hf. rename Hf' into Hf.
      destruct (f k) eqn:Hk.
      * split.
        -- intros [= <-]. repeat split; [lia|done|]. intros u Hu. by apply Hf.
        -- intros (Hc & Hfc & Hbelow). f_equal.
           destruct (decide (c = k)) as [->|Hne]; [done|].
           rewrite Hf in Hfc by lia. done.
      * split; [done|]. intros (Hc & Hfc & Hbelow).
        destruct (decide (c = k)) as [->|Hne]; [congruence|].
        rewrite Hf in Hfc by lia. done.
Qed.

Section ClosedFormFacts.

Variable n : nat.
Variable cand : nat -> list nat.
Variable close : nat -> nat -> bool.

Local Abbreviation rch := (reaches cand close).
Local Abbreviation tkn := (taken cand close).
Local Abbreviation grb := (grabs cand close).
Local Abbreviation after := (target_after cand close).
Local Abbreviation within := (target_within cand close).
Local Abbreviation tst := (test_at close).

Lemma reaches_irrefl (k : nat) : rch k k = false.
Proof. unfold reaches. by rewrite Nat.eqb_refl. Qed.

Lemma reaches_neq (s t : nat) : rch s t = true -> s <> t.
Proof. intros H ->. by rewrite reaches_irrefl in H. Qed.

Lemma reaches_cand (s t : nat) : rch s t = true -> t ∈ cand s.
Proof.
  unfold reaches. intros H. apply andb_true_iff in H as [H _].
  apply andb_true_iff in H as [_ H]. apply existsb_exists in H as (x & Hin & Hx).
  apply Nat.eqb_eq in Hx as ->. by apply list_elem_of_In.
Qed.

Lemma grabs_below (s k : nat) : s <= k -> grb s k = rch s k.
Proof.
  intros Hs. unfold grabs, taken.
  replace (k <? s) with false by (symmetry; apply Nat.ltb_ge; lia).
  simpl. by rewrite andb_true_r.
Qed.

Lemma grabs_neq (s t : nat) : grb s t = true -> s <> t.
Proof. unfold grabs. intros H. apply andb_true_iff in H as [H _]. by apply reaches_neq. Qed.

(** The entry of k at the start of its own round. *)
Lemma within_self (k : nat) (p : list nat) : within k p k = after k k.
Proof.
  unfold target_within, target_after.
  destruct (find _ _); [done|].
  unfold grabs at 1. by rewrite reaches_irrefl, andb_false_r.
Qed.

Lemma after_self_taken (k c : nat) : c <> k -> (after k k = c <-> tkn c k = true).
Proof.
  intros Hne. unfold target_after.
  destruct (find (λ s, grb s k) (seq 0 k)) as [s|] eqn:Hf.
  - apply find_seq_Some in Hf as (Hs & Hg & Hbelow).
    rewrite grabs_below in Hg by lia.
    unfold taken. split.
    + intros ->. rewrite Hg. replace (c <? k) with true by (symmetry; apply Nat.ltb_lt; lia).
      simpl. apply forallb_forall. intros u Hu. apply in_seq in Hu.
      specialize (Hbelow u ltac:(lia)). rewrite grabs_below in Hbelow by lia.
      by rewrite Hbelow.
    + intros H. apply andb_true_iff in H as [H Hall]. apply andb_true_iff in H as [Hlt Hr].
      apply Nat.ltb_lt in Hlt. rewrite forallb_forall in Hall.
      destruct (Nat.lt_trichotomy s c) as [Hsc|[->|Hcs]]; [|done|].
      * specialize (Hall s). rewrite Hg in Hall. discriminate Hall. apply in_seq. lia.
      * specialize (Hbelow c Hcs). rewrite grabs_below in Hbelow by lia. congruence.
  - pose proof (proj1 (find_seq_None _ _) Hf) as Hnone. split; [congruence|].
    unfold taken. intros H. apply andb_true_iff in H as [H _]. apply andb_true_iff in H as [Hlt Hr].
    apply Nat.ltb_lt in Hlt. specialize (Hnone c Hlt). cbv beta in Hnone.
    rewrite grabs_below in Hnone by lia.
    congruence.
Qed.

Lemma existsb_snoc (t c : nat) (p : list nat) :
  existsb (Nat.eqb t) (p ++ [c]) = existsb (Nat.eqb t) p || (t =? c).
Proof. rewrite existsb_app. simpl. by rewrite orb_false_r. Qed.

(** One test of the innermost loop keeps the closed form. *)
Lemma test_at_within (k c : nat) (p : list nat) :
  k < n -> c < n -> c ∈ cand k ->
  tst k (map (within k p) (seq 0 n)) c = map (within k (p ++ [c])) (seq 0 n).
Proof.
  intros Hk Hc Hin. unfold test_at.
  rewrite !lookup_total_map_seq by done. rewrite within_self.
  assert (Hother : forall t, t <> c -> within k (p ++ [c]) t = within k p t).
  { intros t Ht. unfold target_within. destruct (find _ _); [done|].
    rewrite existsb_snoc. replace (t =? c) with false by (symmetry; by apply Nat.eqb_neq).
    by rewrite orb_false_r. }
  assert (Hsame : within k p c = within k (p ++ [c]) c ->
                  map (within k p) (seq 0 n) = map (within k (p ++ [c])) (seq 0 n)).
  { intros Heq. symmetry. apply map_seq_ext. intros t _.
    destruct (decide (t = c)) as [->|Hne]; [done|by symmetry; apply Hother]. }
  assert (Hcand : existsb (Nat.eqb c) (cand k) = true).
  { apply existsb_exists. exists c. split; [by apply list_elem_of_In|apply Nat.eqb_refl]. }
  unfold target_within at 1 3 4 5.
  unfold target_within in Hsame.
  rewrite existsb_snoc, Nat.eqb_refl, orb_true_r in *. simpl in *.
  destruct (find (λ s, grb s c) (seq 0 k)) as [s|] eqn:Hf.
  - (* c was mapped away in an earlier round *)
    apply find_seq_Some in Hf as (Hs & Hg & _). apply grabs_neq in Hg.
    destruct (after k k =? s); [by apply Hsame|].
    replace (c =? s) with false by (symmetry; apply Nat.eqb_neq; congruence).
    simpl. by apply Hsame.
  - destruct (existsb (Nat.eqb c) p && grb k c) eqn:Hdone.
    + (* c was mapped onto k earlier in this round *)
      apply andb_true_iff in Hdone as [_ Hg]. rewrite Hg in *.
      pose proof (grabs_neq _ _ Hg) as Hkc.
      destruct (after k k =? k); [by apply Hsame|].
      replace (c =? k) with false by (symmetry; apply Nat.eqb_neq; congruence).
      simpl. by apply Hsame.
    + (* c is still unmapped *)
      destruct (after k k =? c) eqn:Hkc.
      * apply Nat.eqb_eq in Hkc.
        assert (grb k c = false) as Hg.
        { destruct (decide (c = k)) as [->|Hne].
          - unfold grabs. by rewrite reaches_irrefl.
          - apply after_self_taken in Hkc; [|done]. unfold grabs. rewrite Hkc.
            by rewrite andb_false_r. }
        rewrite Hg in *. by apply Hsame.
      * apply Nat.eqb_neq in Hkc. rewrite Nat.eqb_refl. simpl.
        assert (Hck : c <> k).
        { intros ->. apply Hkc. unfold target_after.
          destruct (find (λ s, grb s k) (seq 0 k)) as [s|] eqn:Hs; [|done].
          congruence. }
        assert (Htk : tkn c k = false).
        { destruct (tkn c k) eqn:Ht; [|done]. apply after_self_taken in Ht; [|done]. done. }
        assert (Hg : grb k c = close k c).
        { unfold grabs, reaches. rewrite Htk, Hcand.
          replace (k =? c) with false by (symmetry; apply Nat.eqb_neq; congruence).
          simpl. by rewrite andb_true_r. }
        rewrite Hg in *. destruct (close k c).
        -- apply insert_map_seq; [done| |].
           ++ unfold target_within. rewrite Hf, existsb_snoc, Nat.eqb_refl, orb_true_r, Hg.
              simpl. done.
           ++ intros t Ht. rewrite Hother by done. done.
        -- by apply Hsame.
Qed.

Lemma within_nil (k t : nat) : within k [] t = after k t.
Proof. unfold target_within, target_after. by destruct (find _ _). Qed.

Lemma within_all (k t : nat) : within k (cand k) t = after (S k) t.
Proof.
  unfold target_within, target_after. rewrite seq_S, find_snoc. simpl.
  destruct (find _ _); [done|].
  destruct (grb k t) eqn:Hg; [|by rewrite andb_false_r].
  rewrite andb_true_r.
  unfold grabs in Hg. apply andb_true_iff in Hg as [Hr _].
  unfold reaches in Hr. apply andb_true_iff in Hr as [Hr _].
  apply andb_true_iff in Hr as [_ ->]. done.
Qed.

Lemma tests_within (k : nat) (rest p : list nat) :
  k < n -> (forall t, t ∈ rest -> t < n /\ t ∈ cand k) ->
  fold_left (tst k) rest (map (within k p) (seq 0 n)) = map (within k (p ++ rest)) (seq 0 n).
Proof.
  intros Hk. revert p. induction rest as [|c rest IH]; intros p Hrest; simpl.
  - by rewrite app_nil_r.
  - destruct (Hrest c) as [Hc Hin]; [by left|].
    rewrite test_at_within by done.
    rewrite IH.
    + by rewrite <- app_assoc.
    + intros t Ht. apply Hrest. by right.
Qed.

Lemma round_at_after (k : nat) :
  k < n -> (forall t, t ∈ cand k -> t < n) ->
  round_at cand close (map (after k) (seq 0 n)) k = map (after (S k)) (seq 0 n).
Proof.
  intros Hk Hcand. unfold round_at.
  rewrite (map_seq_ext (after k) (within k [])) by (intros; apply within_nil).
  rewrite tests_within by (done || (intros; split; [by apply Hcand|done])).
  simpl. apply map_seq_ext. intros t _. symmetry. apply within_all.
Qed.

Lemma rounds_after (m : nat) :
  m <= n -> (forall k t, k < n -> t ∈ cand k -> t < n) ->
  fold_left (round_at cand close) (seq 0 m) (seq 0 n) = map (after m) (seq 0 n).
Proof.
  intros Hm Hcand. induction m as [|m IH].
  - simpl. unfold target_after. simpl. by rewrite map_id.
  - rewrite seq_S, fold_left_app. simpl. rewrite IH by lia.
    apply round_at_after; [lia|]. intros t. by apply Hcand.
Qed.

End ClosedFormFacts.

(** *** From the code to the closed form *)

Lemma dense_ids_lookup (nodes : list Node) (k : nat) :
  dense_ids nodes -> k < length nodes -> getID (nodes !!! k) = k.
Proof.
  intros Hd Hk. unfold dense_ids in Hd.
  destruct (lookup_lt_is_Some_2 nodes k Hk) as [nd Hnd].
  rewrite (list_lookup_total_correct _ _ _ Hnd).
  assert (map getID nodes !! k = Some (getID nd)) as H by (by rewrite list_lookup_fmap, Hnd).
  rewrite Hd, lookup_seq_lt in H by done. by injection H.
Qed.

Lemma fold_left_concat {A B} (f : A -> B -> A) (ls : list (list B)) (a : A) :
  fold_left (fun m l => fold_left f l m) ls a = fold_left f (concat ls) a.
Proof.
  revert a. induction ls as [|l ls IH]; intros a; simpl; [done|].
  by rewrite fold_left_app, IH.
Qed.

Lemma fold_left_ext_in {A B} (f g : A -> B -> A) (l : list B) (a : A) :
  (forall x b, b ∈ l -> f x b = g x b) -> fold_left f l a = fold_left g l a.
Proof.
  revert a. induction l as [|b l IH]; intros a H; simpl; [done|].
  rewrite (H a b) by (by left). apply IH. intros x b' Hb'. apply H. by right.
Qed.

Section CodeToClosedForm.

Variable grid : GridQuery.
Variable nodes : list Node.
Variable eps : Z.
Hypothesis Hdense : dense_ids nodes.
Hypothesis Hvalid : valid_candidates grid nodes eps.

Lemma collapse_test_at (k t : nat) (id_map : list nat) :
  k < length nodes -> t < length nodes ->
  collapse_test nodes (eps * eps) (nodes !!! k) id_map t =
  test_at (closer nodes eps) k id_map t.
Proof.
  intros Hk Ht. unfold collapse_test, test_at, closer.
  by rewrite !dense_ids_lookup.
Qed.

Lemma collapse_node_round (k : nat) (id_map : list nat) :
  k < length nodes ->
  collapse_node grid nodes eps id_map k =
  round_at (candidates grid nodes eps) (closer nodes eps) id_map k.
Proof.
  intros Hk. unfold collapse_node, round_at.
  rewrite dense_ids_lookup, Nat.eqb_refl by done. simpl.
  rewrite fold_left_concat. apply fold_left_ext_in.
  intros m t Ht. apply collapse_test_at; [done|]. by apply (Hvalid k).
Qed.

Lemma collapseNodeIndeces_closed_form :
  collapseNodeIndeces grid nodes eps = collapse_closed_form grid nodes eps.
Proof.
  unfold collapseNodeIndeces, collapse_closed_form.
  rewrite <- rounds_after by (done || apply Hvalid).
  apply fold_left_ext_in. intros m k Hk. apply collapse_node_round.
  apply list_elem_of_In, in_seq in Hk. lia.
Qed.

End CodeToClosedForm.

(** *** Survivors in the closed form *)

Lemma length_collapse_test (nodes : list Node) (sqr_eps : Z) (node : Node)
    (id_map : list nat) (t : nat) :
  length (collapse_test nodes sqr_eps node id_map t) = length id_map.
Proof.
  unfold collapse_test. repeat case_match; try done. apply length_insert.
Qed.

Lemma length_fold_left {A B} (f : list A -> B -> list A) (l : list B) (a : list A) :
  (forall x b, length (f x b) = length x) -> length (fold_left f l a) = length a.
Proof.
  intros Hf. revert a. induction l as [|b l IH]; intros a; simpl; [done|].
  by rewrite IH, Hf.
Qed.

Lemma length_collapseNodeIndeces (grid : GridQuery) (nodes : list Node) (eps : Z) :
  length (collapseNodeIndeces grid nodes eps) = length nodes.
Proof.
  unfold collapseNodeIndeces. rewrite length_fold_left; [apply length_seq|].
  intros m k. unfold collapse_node. case_match; [done|].
  apply length_fold_left. intros m' cell. apply length_fold_left.
  intros. apply length_collapse_test.
Qed.

Lemma closed_form_survivor (grid : GridQuery) (nodes : list Node) (eps : Z) (t : nat) :
  t < length nodes ->
  (collapse_closed_form grid nodes eps !!! t = t <->
   forall s, s < length nodes ->
     grabs (candidates grid nodes eps) (closer nodes eps) s t = false).
Proof.
  intros Ht. unfold collapse_closed_form. rewrite lookup_total_map_seq by done.
  unfold target_after.
  destruct (find _ _) as [s|] eqn:Hf.
  - apply find_seq_Some in Hf as (Hs & Hg & _). split.
    + intros ->. by apply grabs_neq in Hg.
    + intros H. rewrite H in Hg by done. done.
  - pose proof (proj1 (find_seq_None _ _) Hf) as Hnone. split; [|done].
    intros _ s Hs. by apply Hnone.
Qed.

(** Two survivors of which one tests the other are not closer than eps. *)
Lemma survivors_not_reaching (grid : GridQuery) (nodes : list Node) (eps : Z) (r t : nat) :
  let cand := candidates grid nodes eps in
  let close := closer nodes eps in
  r < length nodes -> t < length nodes ->
  collapse_closed_form grid nodes eps !!! r = r ->
  collapse_closed_form grid nodes eps !!! t = t ->
  reaches cand close r t = false.
Proof.
  intros cand close Hr Ht Sr St.
  pose proof (proj1 (closed_form_survivor grid nodes eps r Hr) Sr) as Sr'.
  pose proof (proj1 (closed_form_survivor grid nodes eps t Ht) St) as St'.
  clear Sr St. rename Sr' into Sr. rename St' into St.
  destruct (reaches cand close r t) eqn:Hreach; [|done].
  pose proof (St r Hr) as Hg. unfold grabs in Hg. fold cand close in Hg.
  rewrite Hreach in Hg. simpl in Hg. apply negb_false_iff in Hg.
  pose proof (Sr t Ht) as Hg'. unfold grabs in Hg'. fold cand close in Hg'.
  unfold taken in Hg. fold cand close in Hg.
  apply andb_true_iff in Hg as [Hg _]. apply andb_true_iff in Hg as [Hlt Htr].
  rewrite Htr in Hg'. simpl in Hg'. apply negb_false_iff in Hg'.
  unfold taken in Hg'. apply andb_true_iff in Hg' as [Hg' _].
  apply andb_true_iff in Hg' as [Hlt' _].
  apply Nat.ltb_lt in Hlt, Hlt'. lia.
Qed.

(** *** Two tolerances *)

Section TwoTolerances.

Variable n : nat.
Variables cand1 cand2 : nat -> list nat.
Variables close1 close2 : nat -> nat -> bool.

Hypothesis Hsub : forall s t, s < n -> t < n ->
  reaches cand1 close1 s t = true -> reaches cand2 close2 s t = true.
Hypothesis Hsym : forall s t, s < n -> t < n ->
  reaches cand1 close1 s t = true -> reaches cand1 close1 t s = true.

Lemma grabs_mono (s t : nat) :
  s < n -> t < n ->
  grabs cand1 close1 s t = true -> grabs cand2 close2 s t = true.
Proof.
  intros Hs Ht Hg. unfold grabs in *.
  apply andb_true_iff in Hg as [Hr Hnt]. rewrite (Hsub s t) by done. simpl.
  apply negb_true_iff in Hnt. apply negb_true_iff.
  destruct (taken cand2 close2 t s) eqn:Ht2; [|done].
  rewrite <- Hnt. symmetry. unfold taken in *.
  apply andb_true_iff in Ht2 as [Ht2 Hall]. apply andb_true_iff in Ht2 as [Hlt _].
  rewrite Hlt, (Hsym s t) by done. simpl.
  apply forallb_forall. intros u Hu.
  rewrite forallb_forall in Hall. specialize (Hall u Hu).
  apply in_seq in Hu. apply Nat.ltb_lt in Hlt.
  apply negb_true_iff in Hall. apply negb_true_iff.
  destruct (reaches cand1 close1 u s) eqn:Hus; [|done].
  rewrite (Hsub u s) in Hall by (done || lia). done.
Qed.

Lemma target_mono (t : nat) :
  t < n ->
  target_after cand2 close2 n t = t -> target_after cand1 close1 n t = t.
Proof.
  intros Ht. unfold target_after.
  destruct (find (λ s, grabs cand2 close2 s t) (seq 0 n)) as [s2|] eqn:Hf2.
  - apply find_seq_Some in Hf2 as (_ & Hg & _). intros ->. by apply grabs_neq in Hg.
  - intros _. pose proof (proj1 (find_seq_None _ _) Hf2) as Hnone.
    destruct (find (λ s, grabs cand1 close1 s t) (seq 0 n)) as [s1|] eqn:Hf1; [|done].
    apply find_seq_Some in Hf1 as (Hs & Hg & _).
    apply grabs_mono in Hg; [|done..]. rewrite Hnone in Hg by done. done.
Qed.

End TwoTolerances.

(** *** Counting *)

Lemma count_fold (P : nat -> bool) (l : list nat) (c : nat) :
  fold_left (fun count i => if P i then S count else count) l c
  = c + length (List.filter P l).
Proof.
  revert c. induction l as [|i l IH]; intros c; simpl; [lia|].
  rewrite IH. destruct (P i); simpl; lia.
Qed.

Lemma filter_length_le (P Q : nat -> bool) (l : list nat) :
  (forall i, In i l -> P i = true -> Q i = true) ->
  length (List.filter P l) <= length (List.filter Q l).
Proof.
  induction l as [|i l IH]; intros H; simpl; [lia|].
  assert (IH' := IH (fun j Hj => H j (or_intror Hj))).
  destruct (P i) eqn:HP.
  - rewrite (H i) by (done || by left). simpl. lia.
  - destruct (Q i); simpl; lia.
Qed.

Lemma filter_length_compl (P : nat -> bool) (l : list nat) :
  length (List.filter P l) + length (List.filter (fun i => negb (P i)) l) = length l.
Proof.
  induction l as [|i l IH]; simpl; [done|]. destruct (P i); simpl; lia.
Qed.

Lemma getNCollapsableNodes_filter (grid : GridQuery) (nodes : list Node) (eps : Z) :
  getNCollapsableNodes grid nodes eps =
  length (List.filter (fun i => negb (i =? collapseNodeIndeces grid nodes eps !!! i))
                      (seq 0 (length nodes))).
Proof.
  unfold getNCollapsableNodes. rewrite count_fold, length_collapseNodeIndeces. done.
Qed.

(** *** The grid of section 4.1 *)

Lemma elem_of_candidates_cubeGrid (nodes : list Node) (eps : Z) (k t : nat) :
  t ∈ candidates cubeGrid nodes eps k <->
  t < length nodes /\
  in_cube eps (getCoords (nodes !!! k)) (getCoords (nodes !!! t)) = true.
Proof.
  unfold candidates, cubeGrid. simpl. rewrite app_nil_r.
  rewrite list_elem_of_filter, list_elem_of_In, in_seq.
  rewrite Is_true_true. split; intros [? ?]; split; (done || lia).
Qed.

Lemma valid_candidates_cubeGrid (nodes : list Node) (eps : Z) :
  valid_candidates cubeGrid nodes eps.
Proof. intros k t _ Ht. by apply elem_of_candidates_cubeGrid in Ht as [? _]. Qed.

Lemma sqrDist_sym (p q : Point) : sqrDist p q = sqrDist q p.
Proof. destruct p as [[px py] pz], q as [[qx qy] qz]. unfold sqrDist. ring. Qed.

(** *** constructNewNodesArray *)

Lemma construct_prefix (id_map : list nat) (nodes : list Node) (k : nat) :
  dense_ids nodes -> k <= length nodes ->
  let st := fold_left (construct_step id_map) (seq 0 k) (nodes, []) in
  length st.1 = length nodes /\
  (forall j, k <= j -> st.1 !! j = nodes !! j) /\
  st.2 = imap (fun i p => mkNode (getCoords (nodes !!! p)) i) (kept id_map k).
Proof.
  intros Hdense. induction k as [|k IH]; intros Hk.
  - simpl. done.
  - rewrite seq_S, fold_left_app. simpl.
    destruct IH as (Hlen & Hrest & Hnew); [lia|].
    destruct (fold_left (construct_step id_map) (seq 0 k) (nodes, [])) as [nodes_k new_k].
    simpl in *.
    assert (Hnd : nodes_k !!! k = nodes !!! k).
    { rewrite !list_lookup_total_alt, Hrest by done. done. }
    rewrite Hnd, dense_ids_lookup by (done || lia).
    unfold kept in *. rewrite seq_S, List.filter_app. simpl.
    destruct (k =? id_map !!! k) eqn:Hkeep; simpl.
    + repeat split.
      * by rewrite length_insert.
      * intros j Hj. rewrite list_lookup_insert_ne by lia. apply Hrest. lia.
      * rewrite imap_app. simpl. rewrite Hnew, length_imap, Nat.add_0_r. done.
    + repeat split.
      * by rewrite length_insert.
      * intros j Hj. rewrite list_lookup_insert_ne by lia. apply Hrest. lia.
      * by rewrite app_nil_r.
Qed.

Lemma constructNewNodesArray_kept (id_map : list nat) (nodes : list Node) :
  dense_ids nodes ->
  (constructNewNodesArray id_map nodes).2 =
  imap (fun i p => mkNode (getCoords (nodes !!! p)) i) (kept id_map (length nodes)).
Proof.
  intros Hdense. unfold constructNewNodesArray.
  by destruct (construct_prefix id_map nodes (length nodes) Hdense (le_n _)) as (_ & _ & ?).
Qed.

(** ** The collapse map: chains (C2) *)

(** C2 (the code departs from the specification).  The specification calls the
    collapse map idempotent and says that a node which is already mapped away
    is skipped as a collapse target.  On three nodes of the space diagonal
    the map of the code is [0; 0; 1]: the round of node 1 runs although node 1
    is mapped onto node 0 (the guard of line 156 compares the identifier of
    the node, which [collapseNodeIndeces] never changes, and not its map
    entry), node 2 is mapped onto node 1, and the map is not idempotent. *)
Theorem collapse_map_chain :
  collapseNodeIndeces cubeGrid chainNodes 10 = [0; 0; 1] /\
  collapse_node cubeGrid chainNodes 10 [0; 0; 2] 1 = [0; 0; 1] /\
  ~ idempotent (collapseNodeIndeces cubeGrid chainNodes 10).
Proof.
  assert (H : collapseNodeIndeces cubeGrid chainNodes 10 = [0; 0; 1]) by (by vm_compute).
  split; [done|]. split; [by vm_compute|].
  rewrite H. intros Hid. specialize (Hid 2). simpl in Hid.
  discriminate Hid. lia.
Qed.

(** The same map results from every grid that offers at least the nodes of
    the half-eps cube as test nodes, whatever else its cells hold. *)
Lemma collapse_map_chain_any_grid (grid : GridQuery) :
  valid_candidates grid chainNodes 10 ->
  (forall k t, k < 3 -> t < 3 ->
     in_cube 10 (getCoords (chainNodes !!! k)) (getCoords (chainNodes !!! t)) = true ->
     t ∈ candidates grid chainNodes 10 k) ->
  collapseNodeIndeces grid chainNodes 10 = [0; 0; 1].
Proof.
  intros Hvalid Hcube.
  rewrite collapseNodeIndeces_closed_form by done.
  assert (Hin : forall k t, k < 3 -> t < 3 ->
            in_cube 10 (getCoords (chainNodes !!! k)) (getCoords (chainNodes !!! t)) = true ->
            existsb (Nat.eqb t) (candidates grid chainNodes 10 k) = true).
  { intros k t Hk Ht Hc. apply existsb_exists. exists t.
    split; [by apply list_elem_of_In, Hcube|apply Nat.eqb_refl]. }
  assert (H01 : existsb (Nat.eqb 1) (candidates grid chainNodes 10 0) = true)
    by (apply Hin; [lia|lia|by vm_compute]).
  assert (H10 : existsb (Nat.eqb 0) (candidates grid chainNodes 10 1) = true)
    by (apply Hin; [lia|lia|by vm_compute]).
  assert (H12 : existsb (Nat.eqb 2) (candidates grid chainNodes 10 1) = true)
    by (apply Hin; [lia|lia|by vm_compute]).
  assert (H21 : existsb (Nat.eqb 1) (candidates grid chainNodes 10 2) = true)
    by (apply Hin; [lia|lia|by vm_compute]).
  assert (Hyes : forall s t, s <> t ->
            existsb (Nat.eqb t) (candidates grid chainNodes 10 s) = true ->
            closer chainNodes 10 s t = true ->
            reaches (candidates grid chainNodes 10) (closer chainNodes 10) s t = true).
  { intros s t Hne He Hc. unfold reaches. rewrite He, Hc.
    replace (s =? t) with false by (symmetry; by apply Nat.eqb_neq). done. }
  assert (Hno : forall s t, closer chainNodes 10 s t = false ->
            reaches (candidates grid chainNodes 10) (closer chainNodes 10) s t = false).
  { intros s t Hc. unfold reaches. rewrite Hc. apply andb_false_r. }
  pose proof (Hyes 0 1 ltac:(lia) H01 eq_refl) as R01.
  pose proof (Hyes 1 0 ltac:(lia) H10 eq_refl) as R10.
  pose proof (Hyes 1 2 ltac:(lia) H12 eq_refl) as R12.
  pose proof (Hyes 2 1 ltac:(lia) H21 eq_refl) as R21.
  pose proof (Hno 0 2 eq_refl) as R02.
  pose proof (Hno 2 0 eq_refl) as R20.
  unfold collapse_closed_form, target_after, grabs, taken.
  set (R := reaches (candidates grid chainNodes 10) (closer chainNodes 10)) in *.
  clearbody R. simpl.
  rewrite ?R01, ?R10, ?R12, ?R21, ?R02, ?R20. simpl.
  rewrite ?R01, ?R10, ?R12, ?R21, ?R02, ?R20. by destruct (R 0 0).
Qed.

(** With the middle point stored last, node 1 is mapped onto the later node
    2, which is itself mapped onto node 0.  [constructNewNodesArray] then
    hands node 1 the identifier that node 2 has at that moment, its old
    identifier 2, while the new vector has a single node. *)
Lemma collapse_map_forward_target :
  collapseNodeIndeces cubeGrid forwardNodes 10 = [0; 2; 0] /\
  map getID (constructNewNodesArray [0; 2; 0] forwardNodes).1 = [0; 2; 0] /\
  length (constructNewNodesArray [0; 2; 0] forwardNodes).2 = 1.
Proof. by vm_compute. Qed.

(** ** Survivors and the tolerance (C6) *)

Lemma reaches_spec (cand : nat -> list nat) (close : nat -> nat -> bool) (s t : nat) :
  reaches cand close s t = true <-> s <> t /\ t ∈ cand s /\ close s t = true.
Proof.
  unfold reaches. rewrite !andb_true_iff, negb_true_iff, Nat.eqb_neq, existsb_exists.
  split.
  - intros [[Hne (x & Hin & Hx)] Hc]. apply Nat.eqb_eq in Hx as <-.
    by rewrite list_elem_of_In.
  - intros (Hne & Hin & Hc). repeat split; [done| |done].
    exists t. split; [by apply list_elem_of_In|apply Nat.eqb_refl].
Qed.

Lemma closer_sym (nodes : list Node) (eps : Z) (s t : nat) :
  closer nodes eps s t = closer nodes eps t s.
Proof. unfold closer. by rewrite sqrDist_sym. Qed.

(** Two distinct surviving nodes of which one is among the test nodes of the
    other are at distance at least eps. *)
Lemma tested_survivors_apart (grid : GridQuery) (nodes : list Node) (eps : Z)
    (r t : nat) :
  dense_ids nodes -> valid_candidates grid nodes eps ->
  survives (collapseNodeIndeces grid nodes eps) r ->
  survives (collapseNodeIndeces grid nodes eps) t ->
  r <> t ->
  t ∈ candidates grid nodes eps r ->
  closer nodes eps r t = false.
Proof.
  intros Hdense Hvalid [Hr Sr] [Ht St] Hne Hin.
  rewrite length_collapseNodeIndeces in Hr, Ht.
  rewrite collapseNodeIndeces_closed_form in Sr, St by done.
  pose proof (survivors_not_reaching grid nodes eps r t Hr Ht Sr St) as Hreach.
  simpl in Hreach.
  destruct (closer nodes eps r t) eqn:Hclose; [|done].
  assert (reaches (candidates grid nodes eps) (closer nodes eps) r t = true) as Hyes
    by (by apply reaches_spec).
  congruence.
Qed.

Lemma valid_candidates_singleCellGrid (nodes : list Node) (eps : Z) :
  valid_candidates singleCellGrid nodes eps.
Proof.
  intros k t _ Ht. unfold candidates, singleCellGrid in Ht. simpl in Ht.
  rewrite app_nil_r in Ht. apply list_elem_of_In, in_seq in Ht. lia.
Qed.

Lemma elem_of_candidates_singleCellGrid (nodes : list Node) (eps : Z) (k t : nat) :
  t ∈ candidates singleCellGrid nodes eps k <-> t < length nodes.
Proof.
  unfold candidates, singleCellGrid. simpl. rewrite app_nil_r, list_elem_of_In, in_seq. lia.
Qed.

Lemma tests_close_pairs_singleCellGrid (nodes : list Node) (eps : Z) :
  tests_close_pairs singleCellGrid nodes eps.
Proof. intros r t _ Ht _ _. left. by apply elem_of_candidates_singleCellGrid. Qed.

Lemma tests_both_ways_singleCellGrid (nodes : list Node) (eps : Z) :
  tests_both_ways singleCellGrid nodes eps.
Proof. intros s t Hs _ _ _. by apply elem_of_candidates_singleCellGrid. Qed.

Lemma tests_no_less_singleCellGrid (nodes : list Node) (eps1 eps2 : Z) :
  tests_no_less singleCellGrid nodes eps1 eps2.
Proof. intros s t _ Ht. by rewrite elem_of_candidates_singleCellGrid in *. Qed.

(** On a grid that offers, of two nodes closer than eps, one as a test node
    of the other, two distinct survivors are not closer than eps. *)
Lemma survivors_not_closer (grid : GridQuery) (nodes : list Node) (eps : Z) (r t : nat) :
  dense_ids nodes -> valid_candidates grid nodes eps -> tests_close_pairs grid nodes eps ->
  survives (collapseNodeIndeces grid nodes eps) r ->
  survives (collapseNodeIndeces grid nodes eps) t ->
  r <> t ->
  closer nodes eps r t = false.
Proof.
  intros Hdense Hvalid Htests Sr St Hne.
  destruct (closer nodes eps r t) eqn:Hclose; [exfalso|done].
  pose proof Sr as [Hr _]. pose proof St as [Ht _].
  rewrite length_collapseNodeIndeces in Hr, Ht.
  destruct (Htests r t Hr Ht Hne Hclose) as [Hin|Hin].
  - pose proof (tested_survivors_apart grid nodes eps r t Hdense Hvalid Sr St Hne Hin).
    congruence.
  - pose proof (tested_survivors_apart grid nodes eps t r Hdense Hvalid St Sr
                  (not_eq_sym Hne) Hin) as Hno.
    rewrite closer_sym in Hno. congruence.
Qed.



(** The property rests on the grid.  On a uniform grid of cells of edge 1
    neither of two nodes at distance 6 lies in a cell that meets the half-eps
    cube of the other for eps = 10: they are never tested against each other
    and both survive. *)
Remark survivors_on_fine_grid :
  collapseNodeIndeces (uniformGrid 1) nearNodes 10 = [0; 1] /\
  collapseNodeIndeces singleCellGrid nearNodes 10 = [0; 0].
Proof. by vm_compute. Qed.

(** ** Monotonicity of the count (C9) *)

(** C9, counterexample.  Only the square of the tolerance enters the distance
    test: on the grid of one cell the tolerance -10 collapses one of two
    nodes at distance 6, which the larger tolerance 1 keeps apart. *)
Lemma getNCollapsableNodes_not_monotone :
  ~ (forall eps1 eps2 : Z, (eps1 <= eps2)%Z ->
       getNCollapsableNodes singleCellGrid nearNodes eps1
       <= getNCollapsableNodes singleCellGrid nearNodes eps2).
Proof. intros H. specialize (H (-10)%Z 1%Z ltac:(lia)). vm_compute in H. lia. Qed.

(** C9, amended.  For every grid and every mesh whose identifiers are the
    storage positions, in the range where the arithmetic of the source is
    exact, and every pair of tolerances 0 <= eps1 <= eps2: if the grid
    offers for eps2 every test node that it offers for eps1, and for eps1 a
    test node closer than eps1 has the node among its own test nodes, then
    countCollapsibleNodes(eps1) <= countCollapsibleNodes(eps2). *)
Theorem getNCollapsableNodes_monotone (grid : GridQuery) (nodes : list Node)
    (eps1 eps2 : Z) :
  dense_ids nodes ->
  binary64_exact nodes eps1 = true -> binary64_exact nodes eps2 = true ->
  valid_candidates grid nodes eps1 -> valid_candidates grid nodes eps2 ->
  tests_no_less grid nodes eps1 eps2 -> tests_both_ways grid nodes eps1 ->
  (0 <= eps1 <= eps2)%Z ->
  getNCollapsableNodes grid nodes eps1 <= getNCollapsableNodes grid nodes eps2.
Proof.
  intros Hdense _ _ Hvalid1 Hvalid2 Hless Hboth He. rewrite !getNCollapsableNodes_filter.
  apply filter_length_le. intros i Hi. apply in_seq in Hi.
  rewrite !collapseNodeIndeces_closed_form by done.
  unfold collapse_closed_form. rewrite !lookup_total_map_seq by lia.
  rewrite !negb_true_iff, !Nat.eqb_neq. intros H1 H2. apply H1. symmetry.
  eapply (target_mono (length nodes)); [| |lia|by symmetry; apply H2].
  - intros s t Hs Ht. rewrite !reaches_spec. intros (Hne & Hin & Hclose).
    split; [done|]. split; [by apply Hless|].
    unfold closer in *. apply Z.ltb_lt in Hclose. apply Z.ltb_lt. nia.
  - intros s t Hs Ht. rewrite !reaches_spec. intros (Hne & Hin & Hclose).
    split; [done|]. split; [by apply Hboth|]. by rewrite closer_sym.
Qed.

(** Two nodes at distance 6 on the grid of one cell, with the tolerances 5
    and 10. *)
Lemma getNCollapsableNodes_monotone_witness :
  getNCollapsableNodes singleCellGrid nearNodes 5
  <= getNCollapsableNodes singleCellGrid nearNodes 10.
Proof.
  apply (getNCollapsableNodes_monotone singleCellGrid nearNodes 5 10).
  - reflexivity.
  - reflexivity.
  - reflexivity.
  - apply valid_candidates_singleCellGrid.
  - apply valid_candidates_singleCellGrid.
  - apply tests_no_less_singleCellGrid.
  - apply tests_both_ways_singleCellGrid.
  - lia.
Defined.

(** The two tolerances of the counterexample on the grid of one cell. *)
Remark getNCollapsableNodes_negative_tolerance :
  getNCollapsableNodes singleCellGrid nearNodes (-10) = 1 /\
  getNCollapsableNodes singleCellGrid nearNodes 1 = 0.
Proof. by vm_compute. Qed.

(** The order of the counts rests on the grid as well.  On a uniform grid of
    cells of edge 10 the cell of the first of three nodes in a row meets the
    half-eps cube of the third for eps = 30, while the cell of the third does
    not meet the cube of the first: the third node maps the first onto
    itself, every node is mapped away and the map has no survivor.  For
    eps = 40 the first node reaches both others. *)
Remark getNCollapsableNodes_on_cells :
  collapseNodeIndeces (uniformGrid 10) rowNodes 30 = [2; 0; 1] /\
  getNCollapsableNodes (uniformGrid 10) rowNodes 30 = 3 /\
  collapseNodeIndeces (uniformGrid 10) rowNodes 40 = [0; 0; 0] /\
  getNCollapsableNodes (uniformGrid 10) rowNodes 40 = 2.
Proof. by vm_compute. Qed.

(** ** The new node vector (C10) *)

(** C10.  For every mesh whose node identifiers equal their storage
    positions, countCollapsibleNodes(eps) is the node count of the mesh minus
    the node count of the mesh returned by collapseNodes(eps); the new node
    vector holds, in storage order and with dense identifiers, exactly the
    nodes that the collapse map leaves in place. *)
Theorem collapsed_count_is_node_difference (grid : GridQuery) (_mesh : Mesh)
    (new_mesh_name : string) (eps : Z) :
  dense_ids (getNodes _mesh) ->
  let id_map := collapseNodeIndeces grid (getNodes _mesh) eps in
  let new_mesh := (collapseNodes grid _mesh new_mesh_name eps).1 in
  getNCollapsableNodes grid (getNodes _mesh) eps
    = length (getNodes _mesh) - length (getNodes new_mesh) /\
  length (getNodes new_mesh) <= length (getNodes _mesh) /\
  getNodes new_mesh =
    imap (fun i p => mkNode (getCoords (getNodes _mesh !!! p)) i)
         (kept id_map (length (getNodes _mesh))).
Proof.
  intros Hdense id_map new_mesh.
  assert (Hnew : getNodes new_mesh =
            imap (fun i p => mkNode (getCoords (getNodes _mesh !!! p)) i)
                 (kept id_map (length (getNodes _mesh)))).
  { subst new_mesh. unfold collapseNodes.
    rewrite <- (constructNewNodesArray_kept id_map) by done. fold id_map.
    by destruct (constructNewNodesArray id_map (getNodes _mesh)). }
  rewrite Hnew, length_imap, getNCollapsableNodes_filter. fold id_map.
  pose proof (filter_length_compl (fun k => k =? id_map !!! k)
                (seq 0 (length (getNodes _mesh)))) as Hsum.
  rewrite length_seq in Hsum. unfold kept. repeat split; lia.
Qed.

(** The three nodes of the space diagonal: two nodes are mapped away, one
    node is left. *)
Lemma collapsed_count_is_node_difference_witness :
  getNCollapsableNodes cubeGrid chainNodes 10
    = 3 - length (getNodes (collapseNodes cubeGrid (mkMesh "chain" chainNodes []) "out" 10).1).
Proof.
  apply (collapsed_count_is_node_difference cubeGrid (mkMesh "chain" chainNodes []) "out" 10).
  reflexivity.
Defined.

(** ** The lookup tables (C3, C7) *)

(** Case analysis on an [unsigned] index: one of 0..7, or none of them. *)
Ltac index_cases x :=
  destruct (N.eq_dec x 0%N) as [->|?];
  [|destruct (N.eq_dec x 1%N) as [->|?];
    [|destruct (N.eq_dec x 2%N) as [->|?];
      [|destruct (N.eq_dec x 3%N) as [->|?];
        [|destruct (N.eq_dec x 4%N) as [->|?];
          [|destruct (N.eq_dec x 5%N) as [->|?];
            [|destruct (N.eq_dec x 6%N) as [->|?];
              [|destruct (N.eq_dec x 7%N) as [->|?]]]]]]]].

Ltac eqb_false :=
  repeat match goal with
         | H : ?x <> ?c |- context [(?x =? ?c)%N] => rewrite (proj2 (N.eqb_neq x c) H)
         | H : ?x <> ?c |- context [(?c =? ?x)%N] =>
             rewrite (proj2 (N.eqb_neq c x) (not_eq_sym H))
         end.

(** C3 (the code departs from the specification).  For the ordered pair (1, 2) of
    nodes of the face {0,1,2} the table returns 2, one of the two given
    nodes, where the third node of the face is 0; for the pair (1, 0) it
    returns the sentinel, where the third node is 2.  The first line of the
    table tests (1, 2) where it should test (1, 0). *)
Theorem lutPrismThirdNode_slip :
  lutPrismThirdNode 1 2 = 2%N /\ third_of_triangle 1 2 = 0%N /\
  lutPrismThirdNode 1 0 = numeric_limits_max /\ third_of_triangle 1 0 = 2%N.
Proof. by vm_compute. Qed.

(** Everywhere else the table is what the specification says: the third
    node for the other ten ordered pairs of a triangular face, the sentinel
    for every pair that is not on one face. *)
Lemma lutPrismThirdNode_elsewhere (id1 id2 : unsigned) :
  (id1, id2) <> (1, 2)%N -> (id1, id2) <> (1, 0)%N ->
  lutPrismThirdNode id1 id2 = third_of_triangle id1 id2.
Proof.
  intros H12 H10.
  assert (Hbig : forall x : unsigned,
            x <> 0%N -> x <> 1%N -> x <> 2%N -> x <> 3%N -> x <> 4%N -> x <> 5%N ->
            (x <? 6)%N = false) by (intros; apply N.ltb_ge; lia).
  unfold lutPrismThirdNode, third_of_triangle, on_same_triangle.
  index_cases id1; index_cases id2;
    try (by vm_compute); try congruence;
    eqb_false; rewrite ?Hbig by done;
    rewrite ?andb_false_r; try (by vm_compute); simpl;
    rewrite ?(proj2 (N.ltb_ge id1 6)) by lia; rewrite ?(proj2 (N.ltb_ge id2 6)) by lia;
    rewrite ?andb_false_r; done.
Qed.

(** C7 (the code departs from the specification).  For a pair of corners that is not
    joined by an edge, such as the face diagonal (0, 2) or the space diagonal
    (0, 6), no branch of the table assigns the local array, and the function
    returns it as it found it: whatever the memory held is the answer, and it
    cannot be told from a table entry (here it equals the entry of (0, 1)). *)
Theorem lutHexCuttingQuadNodes_unsignalled :
  hexAdjacent 0 2 = false /\ hexAdjacent 0 6 = false /\
  lutHexCuttingQuadNodes (3, 2, 5, 4)%N 0 2 = lutHexCuttingQuadNodes (0, 0, 0, 0)%N 0 1 /\
  lutHexCuttingQuadNodes (7, 7, 7, 7)%N 0 6 = (7, 7, 7, 7)%N.
Proof. by vm_compute. Qed.

(** The case is reached from [simplifyMesh]: a hexahedron whose corners 0 and
    2 coincide has seven unique nodes, [reduceHex] asks the table for the
    pair (0, 2), and the elements of the new mesh are built from whatever the
    array held. *)
Lemma indeterminate_reaches_mesh :
  getNUniqueNodes (stagedNodes cubeGrid diagonalHexMesh 1) wedgeHex = 7%N /\
  returnedMesh (simplifyMesh (geometry := latticeGeometry) (0, 0, 0, 0)%N cubeGrid
                             diagonalHexMesh "out" 1 1) <>
  returnedMesh (simplifyMesh (geometry := latticeGeometry) (1, 1, 1, 1)%N cubeGrid
                             diagonalHexMesh "out" 1 1).
Proof. split; [by vm_compute|]. vm_compute. discriminate. Qed.

(** The table has exactly the 24 ordered pairs of adjacent corners. *)
Lemma hexAdjacent_pairs :
  length (List.filter (fun '(i, j) => hexAdjacent i j)
            (flat_map (fun i => map (pair i) (rangeN 0 8)) (rangeN 0 8))) = 24.
Proof. by vm_compute. Qed.

(** On them the result does not depend on the content of the array. *)
Lemma lutHexCuttingQuadNodes_defined (nodes nodes' : array4) (id1 id2 : unsigned) :
  hexAdjacent id1 id2 = true ->
  lutHexCuttingQuadNodes nodes id1 id2 = lutHexCuttingQuadNodes nodes' id1 id2.
Proof.
  unfold hexAdjacent, hexEdges, lutHexCuttingQuadNodes.
  index_cases id1; index_cases id2;
    try (by vm_compute);
    cbn [existsb]; eqb_false; rewrite ?andb_false_r; simpl; done.
Qed.

(** On every other pair the array comes back untouched. *)
Lemma lutHexCuttingQuadNodes_untouched (nodes : array4) (id1 id2 : unsigned) :
  hexAdjacent id1 id2 = false ->
  lutHexCuttingQuadNodes nodes id1 id2 = nodes.
Proof.
  unfold hexAdjacent, hexEdges, lutHexCuttingQuadNodes.
  index_cases id1; index_cases id2;
    try (by vm_compute);
    intros _; eqb_false; rewrite ?andb_false_r; simpl; done.
Qed.

(** ** Reduction of a hexahedron with six unique nodes (C4) *)

Section ReduceHexSix.

Context {geometry : ElementGeometry}.
Variable indeterminate : array4.
Variables (st : list Node) (org_elem : Element) (nodes : list Node).
Variables (new_elements : list Element) (min_elem_dim : unsigned).

Lemma reduceHex6_face_None (i : unsigned) :
  face_pairs_01_23 st org_elem i = false ->
  face_pairs_03_12 st org_elem i = false ->
  reduceHex6_face st org_elem nodes new_elements i = None.
Proof.
  unfold face_pairs_01_23, face_pairs_03_12, reduceHex6_face. by intros -> ->.
Qed.

Lemma reduceHex6_face_dropped (i : unsigned) :
  face_pairs_01_23 st org_elem i = false ->
  face_pairs_03_12 st org_elem i = true ->
  reduceHex6_face st org_elem nodes new_elements i = Some (1%N, new_elements).
Proof.
  unfold face_pairs_01_23, face_pairs_03_12, reduceHex6_face. by intros -> ->.
Qed.

Lemma reduceHex6_face_pushed (i : unsigned) :
  face_pairs_01_23 st org_elem i = true ->
  exists prism_nodes,
    length prism_nodes = 6 /\
    reduceHex6_face st org_elem nodes new_elements i =
      Some (1%N, new_elements ++ [Prism prism_nodes (getValue org_elem)]).
Proof.
  unfold face_pairs_01_23, reduceHex6_face. intros ->.
  eexists. split; [|reflexivity]. reflexivity.
Qed.

Lemma first_some_faces (i : unsigned) (r : unsigned * list Element) :
  (i < 6)%N ->
  (forall i', (i' < i)%N -> reduceHex6_face st org_elem nodes new_elements i' = None) ->
  reduceHex6_face st org_elem nodes new_elements i = Some r ->
  first_some (reduceHex6_face st org_elem nodes new_elements) (rangeN 0 6) = Some r.
Proof.
  intros Hi Hbefore Hface.
  change (rangeN 0 6) with [0; 1; 2; 3; 4; 5]%N.
  index_cases i; try lia; cbn [first_some];
    rewrite ?Hbefore by lia; by rewrite Hface.
Qed.

Lemma reduceHex_six :
  reduceHex indeterminate st org_elem 6 nodes new_elements min_elem_dim =
  match first_some (reduceHex6_face st org_elem nodes new_elements) (rangeN 0 6) with
  | Some r => Ok r
  | None => reduceHex6_split indeterminate st org_elem nodes new_elements min_elem_dim
  end.
Proof. reflexivity. Qed.

(** The part of the property that holds: if the first face with two collapsed
    node pairs has them as (0,1) and (2,3), exactly one prism is appended. *)
Lemma reduceHex_pushes_prism (i : unsigned) :
  (i < 6)%N ->
  (forall i', (i' < i)%N ->
     face_pairs_01_23 st org_elem i' = false /\ face_pairs_03_12 st org_elem i' = false) ->
  face_pairs_01_23 st org_elem i = true ->
  exists prism_nodes,
    length prism_nodes = 6 /\
    reduceHex indeterminate st org_elem 6 nodes new_elements min_elem_dim =
      Ok (1%N, new_elements ++ [Prism prism_nodes (getValue org_elem)]).
Proof.
  intros Hi Hbefore H1.
  destruct (reduceHex6_face_pushed i H1) as (prism_nodes & Hlen & Hface).
  exists prism_nodes. split; [done|]. rewrite reduceHex_six.
  erewrite first_some_faces; [done|done| |done].
  intros i' Hi'. destruct (Hbefore i' Hi'). by apply reduceHex6_face_None.
Qed.

(** C4 (the code departs from the specification).  If the first face with two
    collapsed node pairs has them as (0,3) and (1,2), [reduceHex] assembles
    the six nodes of the prism, does not append it, and returns 1: the output
    collection is unchanged and the hexahedron is lost.  The sibling branch
    for the pairs (0,1) and (2,3) has the [push_back] that this one misses. *)
Theorem reduceHex_drops_prism (i : unsigned) :
  (i < 6)%N ->
  (forall i', (i' < i)%N ->
     face_pairs_01_23 st org_elem i' = false /\ face_pairs_03_12 st org_elem i' = false) ->
  face_pairs_01_23 st org_elem i = false ->
  face_pairs_03_12 st org_elem i = true ->
  reduceHex indeterminate st org_elem 6 nodes new_elements min_elem_dim =
    Ok (1%N, new_elements).
Proof.
  intros Hi Hbefore H1 H2. rewrite reduceHex_six.
  erewrite first_some_faces; [done|done| |by apply reduceHex6_face_dropped].
  intros i' Hi'. destruct (Hbefore i' Hi'). by apply reduceHex6_face_None.
Qed.

End ReduceHexSix.

(** The hexahedron of [wedgeMesh] after the collapse with eps = 1, in the
    standard numbering of the faces: face 0 is the first face with two
    collapsed node pairs, and they are (0,3) and (1,2). *)
Lemma reduceHex_drops_prism_witness :
  reduceHex (geometry := latticeGeometry) (0, 0, 0, 0)%N
            (stagedNodes cubeGrid wedgeMesh 1) wedgeHex 6
            (newNodes cubeGrid wedgeMesh 1) [] 1
  = Ok (1%N, []).
Proof.
  apply (reduceHex_drops_prism (geometry := latticeGeometry) (0, 0, 0, 0)%N
           (stagedNodes cubeGrid wedgeMesh 1) wedgeHex
           (newNodes cubeGrid wedgeMesh 1) [] 1%N 0%N).
  - reflexivity.
  - intros i' Hi'. lia.
  - vm_compute. reflexivity.
  - vm_compute. reflexivity.
Defined.

(** The whole operation on that hexahedron: six unique nodes, and no mesh. *)
Lemma wedge_is_lost :
  getNUniqueNodes (stagedNodes cubeGrid wedgeMesh 1) wedgeHex = 6%N /\
  returnedMesh (simplifyMesh (geometry := latticeGeometry) (0, 0, 0, 0)%N cubeGrid
                             wedgeMesh "out" 1 1) = Ok None.
Proof. by vm_compute. Qed.

(** With the other two edges of the same face collapsed the prism is there. *)
Lemma wedge_is_kept :
  returnedMesh (simplifyMesh (geometry := latticeGeometry) (0, 0, 0, 0)%N cubeGrid
                             (withElements (mkMesh "wedge" hexNodes' []) [wedgeHex])
                             "out" 1 1)
  = Ok (Some (mkMesh "out" (newNodes cubeGrid (mkMesh "wedge" hexNodes' []) 1)
                     [Prism [4; 3; 1; 2; 5; 0] 3%N])).
Proof. by vm_compute. Qed.

(** ** The four-node constructor (C5) *)

Lemma existsb_first_occurrences_step (x y : nat) (acc : list nat) :
  existsb (Nat.eqb x) (if existsb (Nat.eqb y) acc then acc else acc ++ [y])
  = existsb (Nat.eqb x) acc || (x =? y).
Proof.
  destruct (existsb (Nat.eqb y) acc) eqn:Hy.
  - destruct (Nat.eqb_spec x y) as [->|Hne]; [by rewrite Hy|by rewrite orb_false_r].
  - rewrite existsb_app. simpl. by rewrite orb_false_r.
Qed.

Lemma existsb_fold_first_occurrences (x : nat) (l acc : list nat) :
  existsb (Nat.eqb x)
    (fold_left (fun acc y => if existsb (Nat.eqb y) acc then acc else acc ++ [y]) l acc)
  = existsb (Nat.eqb x) acc || existsb (Nat.eqb x) l.
Proof.
  revert acc. induction l as [|y l IH]; intros acc; simpl.
  - by rewrite orb_false_r.
  - rewrite IH, existsb_first_occurrences_step. by rewrite orb_assoc.
Qed.

Lemma existsb_first_occurrences (x : nat) (l : list nat) :
  existsb (Nat.eqb x) (first_occurrences l) = existsb (Nat.eqb x) l.
Proof. unfold first_occurrences. by rewrite existsb_fold_first_occurrences. Qed.

Lemma first_occurrences_snoc (l : list nat) (x : nat) :
  first_occurrences (l ++ [x]) =
  if existsb (Nat.eqb x) l then first_occurrences l else first_occurrences l ++ [x].
Proof.
  unfold first_occurrences at 1. rewrite fold_left_app. simpl.
  fold (first_occurrences l). by rewrite existsb_first_occurrences.
Qed.

Lemma take4_snoc (acc : list nat) (x : nat) (b : bool) :
  take 4 (if b then acc else acc ++ [x]) =
  if 3 <? length (take 4 acc) then take 4 acc
  else if b then take 4 acc else take 4 acc ++ [x].
Proof.
  destruct (le_lt_dec (length acc) 3) as [Hle|Hgt].
  - rewrite (take_ge acc 4) by lia.
    replace (3 <? length acc) with false by (symmetry; apply Nat.ltb_ge; lia).
    destruct b; [by rewrite take_ge by lia|].
    rewrite take_ge; [done|]. rewrite length_app. simpl. lia.
  - assert (length (take 4 acc) = 4) as -> by (rewrite length_take; lia).
    simpl. destruct b; [done|]. by rewrite take_app_le by lia.
Qed.

Lemma forallb_differs (x : nat) (f : unsigned -> nat) (js : list unsigned) :
  forallb (fun j => negb (x =? f j)) js = negb (existsb (Nat.eqb x) (map f js)).
Proof.
  induction js as [|j js IH]; simpl; [done|]. by rewrite IH, negb_orb.
Qed.

Lemma rangeN_of_nat (m : nat) : rangeN 0 (N.of_nat m) = map N.of_nat (seq 0 m).
Proof. unfold rangeN. by rewrite Nat2N.id, Nat.sub_0_r. Qed.

Lemma rangeN_from_1 (n : unsigned) :
  rangeN 1 n = map N.of_nat (seq 1 (N.to_nat n - 1)).
Proof. reflexivity. Qed.

(** The loop of [constructFourNodeElement] over the local indices 1..m. *)
Lemma first_unique_loop (id : unsigned -> nat) (m : nat) :
  fold_left
    (fun new_nodes i =>
       if 3 <? length new_nodes then new_nodes
       else if forallb (fun j => negb (id i =? id j)) (rangeN 0 i)
            then new_nodes ++ [id i] else new_nodes)
    (map N.of_nat (seq 1 m)) [id 0%N]
  = take 4 (first_occurrences (map id (map N.of_nat (seq 0 (S m))))).
Proof.
  induction m as [|m IH].
  - reflexivity.
  - rewrite seq_S, map_app, fold_left_app, IH.
    set (l := map id (map N.of_nat (seq 0 (S m)))).
    cbn [map fold_left Nat.add].
    rewrite (seq_S (S m) 0), !map_app. cbn [map Nat.add]. fold l.
    rewrite first_occurrences_snoc.
    rewrite rangeN_of_nat, forallb_differs. fold l.
    rewrite take4_snoc.
    destruct (3 <? length (take 4 (first_occurrences l))); [done|].
    by destruct (existsb (Nat.eqb (id (N.of_nat (S m)))) l).
Qed.

Lemma firstUniqueNodes_first_occurrences (st : list Node) (element : Element)
    (nodes : list Node) :
  firstUniqueNodes st element nodes = take 4 (first_occurrences (elementIDs st element)).
Proof.
  unfold firstUniqueNodes, elementIDs, ptr.
  assert (exists m, getNNodes element = N.of_nat (S m)) as [m Hm].
  { unfold getNNodes. destruct (getGeomType element);
      [by exists 1|by exists 2|by exists 3|by exists 3|by exists 7|by exists 4|by exists 5]. }
  rewrite Hm, rangeN_from_1, rangeN_of_nat, Nat2N.id.
  replace (S m - 1) with m by lia.
  apply (first_unique_loop (nodeID st element) m).
Qed.

Section FourNodes.

Context {geometry : ElementGeometry}.

(** C5.  For an element with exactly four unique nodes a, b, c, d, in order
    of first occurrence: if the four nodes are coplanar and min_elem_dim < 3
    the result is a quadrilateral, over (a, b, c, d) if that passes the
    validation, else, with the middle two nodes exchanged, over (a, c, b, d)
    if that passes, else, after the second and last exchange, over
    (a, c, d, b); if they are coplanar and min_elem_dim is 3 (or more) there
    is no element; if they are not coplanar the result is the tetrahedron
    over (a, b, c, d).  The material value is that of the element. *)
Theorem constructFourNodeElement_four_unique (st : list Node) (element : Element)
    (nodes : list Node) (min_elem_dim : unsigned) (a b c d : nat) :
  first_occurrences (elementIDs st element) = [a; b; c; d] ->
  let value := getValue element in
  let planar :=
    isCoplanar (coordsOf nodes a) (coordsOf nodes b) (coordsOf nodes c) (coordsOf nodes d) in
  let valid q := none (validate nodes (Quad q value)) in
  constructFourNodeElement st element nodes min_elem_dim =
    if planar then
      if (min_elem_dim <? 3)%N then
        Some (Quad (if valid [a; b; c; d] then [a; b; c; d]
                    else if valid [a; c; b; d] then [a; c; b; d]
                    else [a; c; d; b]) value)
      else None
    else Some (Tet [a; b; c; d] value).
Proof.
  intros Hfour value planar valid.
  unfold constructFourNodeElement.
  rewrite firstUniqueNodes_first_occurrences, Hfour.
  change (take 4 [a; b; c; d]) with [a; b; c; d].
  change (at_index 0 [a; b; c; d] 0%N) with a.
  change (at_index 0 [a; b; c; d] 1%N) with b.
  change (at_index 0 [a; b; c; d] 2%N) with c.
  change (at_index 0 [a; b; c; d] 3%N) with d.
  fold planar. fold value.
  destruct planar; cbn [andb negb].
  - destruct (min_elem_dim <? 3)%N; [|done].
    change (rangeN 1 3) with [1; 2]%N. cbn [reorderQuad].
    fold (valid [a; b; c; d]). destruct (valid [a; b; c; d]); [done|].
    change (swap [a; b; c; d] (1 + 1) 1) with [a; c; b; d].
    fold (valid [a; c; b; d]). destruct (valid [a; c; b; d]); [done|].
    reflexivity.
  - reflexivity.
Qed.

End FourNodes.

(** The pyramid over the square listed across its diagonal: the order
    (0, 1, 2, 3) fails the validation, the order (0, 2, 1, 3) passes. *)
Lemma constructFourNodeElement_four_unique_witness :
  constructFourNodeElement (geometry := latticeGeometry)
    squareNodes flatPyramid squareNodes 1 = Some (Quad [0; 2; 1; 3] 5%N).
Proof.
  apply (constructFourNodeElement_four_unique (geometry := latticeGeometry)
           squareNodes flatPyramid squareNodes 1%N 0 1 2 3).
  reflexivity.
Defined.

(** ** simplifyMesh: what ends the operation (C1, C8) *)

Lemma length_rangeN (a b : unsigned) : length (rangeN a b) = N.to_nat b - N.to_nat a.
Proof. unfold rangeN. by rewrite length_map, length_seq. Qed.

Lemma decrement_fold_bounds (P : unsigned -> bool) (l : list unsigned) (count : unsigned) :
  let r := fold_left (fun count i => if P i then (count - 1)%N else count) l count in
  (r <= count)%N /\ (count <= r + N.of_nat (length l))%N.
Proof.
  revert count. induction l as [|i l IH]; intros count; simpl; [lia|].
  destruct (IH (if P i then (count - 1)%N else count)) as [H1 H2].
  destruct (P i); lia.
Qed.

Section Simplify.

Context {geometry : ElementGeometry}.
Variable indeterminate : array4.

(** The count of unique nodes is never above the number of nodes and never
    below one: of the two violations that [simplifyMesh] reports, "more
    unique nodes than actual nodes" cannot occur. *)
Lemma getNUniqueNodes_bounds (st : list Node) (element : Element) :
  (1 <= getNUniqueNodes st element <= getNNodes element)%N.
Proof.
  unfold getNUniqueNodes.
  pose proof (decrement_fold_bounds
    (fun i => existsb (fun j => nodeID st element i =? nodeID st element j)
                      (rangeN (i + 1) (getNNodes element)))
    (rangeN 0 (getNNodes element - 1)) (getNNodes element)) as [H1 H2].
  simpl in H1, H2. rewrite length_rangeN in H2.
  assert (2 <= getNNodes element)%N
    by (unfold getNNodes; destruct (getGeomType element); lia).
  split; [|done]. lia.
Qed.

(** One round of the loop for an element all of whose nodes have collapsed
    into one: nothing is appended and the loop goes on. *)
Lemma simplifyElements_skip (st nodes : list Node) (min_elem_dim : unsigned)
    (elem : Element) (rest new_elements : list Element) :
  (getNUniqueNodes st elem <= 1)%N ->
  simplifyElements indeterminate st nodes min_elem_dim (elem :: rest) new_elements =
  simplifyElements indeterminate st nodes min_elem_dim rest new_elements.
Proof.
  intros Hone. cbn [simplifyElements].
  assert (2 <= getNNodes elem)%N
    by (unfold getNNodes; destruct (getGeomType elem); lia).
  replace (getNUniqueNodes st elem =? getNNodes elem)%N with false
    by (symmetry; apply N.eqb_neq; lia).
  replace (1 <? getNUniqueNodes st elem)%N with false
    by (symmetry; apply N.ltb_ge; lia).
  by rewrite andb_false_r.
Qed.

Lemma simplifyElements_skip_within (st nodes : list Node) (min_elem_dim : unsigned)
    (elem : Element) (before rest new_elements : list Element) :
  (getNUniqueNodes st elem <= 1)%N ->
  simplifyElements indeterminate st nodes min_elem_dim (before ++ elem :: rest) new_elements =
  simplifyElements indeterminate st nodes min_elem_dim (before ++ rest) new_elements.
Proof.
  intros Hone. revert new_elements.
  induction before as [|e before IH]; intros new_elements.
  - by apply simplifyElements_skip.
  - cbn [app simplifyElements].
    repeat case_match; try done; apply IH.
Qed.

Variable grid : GridQuery.

(** C1, amended.  If for some element of the mesh the count of unique nodes
    after the collapse is at most 1 (it is never above the number of nodes of
    the element), the element is reported and left out, and the operation
    goes on: as long as the mesh has other elements, [simplifyMesh] returns
    what it returns for the mesh without that element. *)
Theorem simplifyMesh_skips_collapsed_element (_mesh : Mesh) (new_mesh_name : string)
    (eps : Z) (min_elem_dim : unsigned) (elem : Element) (before rest : list Element) :
  getElements _mesh = before ++ elem :: rest ->
  before ++ rest <> [] ->
  (getNUniqueNodes (stagedNodes grid _mesh eps) elem <= 1)%N ->
  returnedMesh (simplifyMesh indeterminate grid _mesh new_mesh_name eps min_elem_dim) =
  returnedMesh (simplifyMesh indeterminate grid (withElements _mesh (before ++ rest))
                             new_mesh_name eps min_elem_dim).
Proof.
  intros Helems Hothers Hone. unfold simplifyMesh, getNElements, stagedNodes in *.
  cbn [withElements getElements getNodes]. rewrite Helems.
  replace (length (before ++ elem :: rest) =? 0) with false
    by (symmetry; apply Nat.eqb_neq; rewrite length_app; simpl; lia).
  replace (length (before ++ rest) =? 0) with false
    by (symmetry; apply Nat.eqb_neq; destruct (before ++ rest); [done|simpl; lia]).
  destruct (constructNewNodesArray _ _) as [staged new_nodes]. cbn [fst] in Hone.
  rewrite simplifyElements_skip_within by done.
  destruct (simplifyElements _ _ _ _ _ _) as [new_elements| |]; [|done..].
  by destruct new_elements.
Qed.

(** C8.  [simplifyMesh] returns the null pointer for a mesh without elements
    and when the loop over the elements ends with an empty output
    collection; a mesh that it returns has at least one element. *)
Theorem simplifyMesh_no_empty_mesh (_mesh : Mesh) (new_mesh_name : string)
    (eps : Z) (min_elem_dim : unsigned) :
  (getNElements _mesh = 0 ->
   simplifyMesh indeterminate grid _mesh new_mesh_name eps min_elem_dim = Ok (None, _mesh)) /\
  (simplifyElements indeterminate (stagedNodes grid _mesh eps) (newNodes grid _mesh eps)
                    min_elem_dim (getElements _mesh) [] = Finished [] ->
   returnedMesh (simplifyMesh indeterminate grid _mesh new_mesh_name eps min_elem_dim)
     = Ok None) /\
  (forall m after,
     simplifyMesh indeterminate grid _mesh new_mesh_name eps min_elem_dim = Ok (Some m, after) ->
     getElements m <> [] /\ getNElements _mesh <> 0).
Proof.
  unfold simplifyMesh, stagedNodes, newNodes. split; [|split].
  - by intros ->.
  - destruct (getNElements _mesh =? 0); [done|].
    destruct (constructNewNodesArray _ _) as [staged new_nodes]. cbn [fst snd].
    by intros ->.
  - intros m after.
    destruct (getNElements _mesh =? 0) eqn:Hn; [done|]. apply Nat.eqb_neq in Hn.
    destruct (constructNewNodesArray _ _) as [staged new_nodes].
    destruct (simplifyElements _ _ _ _ _ _) as [new_elements| |]; [|done..].
    destruct new_elements; [done|]. intros [= <- _]. done.
Qed.

End Simplify.

(** C1, counterexample.  A line whose two nodes collapse into one has a
    single unique node; [simplifyMesh] goes on all the same and returns the
    mesh of the triangle that follows it. *)
Lemma simplifyMesh_not_aborted :
  getNUniqueNodes (stagedNodes cubeGrid lineAndTriangle 1) (Line [0; 1] 7%N) = 1%N /\
  returnedMesh (simplifyMesh (geometry := latticeGeometry) (0, 0, 0, 0)%N cubeGrid
                             lineAndTriangle "out" 1 1)
  = Ok (Some (mkMesh "out" (newNodes cubeGrid lineAndTriangle 1) [Tri [1; 2; 3] 8%N])).
Proof. by vm_compute. Qed.

(** The line of [lineAndTriangle] is left out. *)
Lemma simplifyMesh_skips_collapsed_element_witness :
  returnedMesh (simplifyMesh (geometry := latticeGeometry) (0, 0, 0, 0)%N cubeGrid
                             lineAndTriangle "out" 1 1) =
  returnedMesh (simplifyMesh (geometry := latticeGeometry) (0, 0, 0, 0)%N cubeGrid
                             (withElements lineAndTriangle ([] ++ [Tri [2; 3; 4] 8%N]))
                             "out" 1 1).
Proof.
  apply (simplifyMesh_skips_collapsed_element (geometry := latticeGeometry)
           (0, 0, 0, 0)%N cubeGrid lineAndTriangle "out" 1 1%N
           (Line [0; 1] 7%N) [] [Tri [2; 3; 4] 8%N]).
  - reflexivity.
  - discriminate.
  - vm_compute. discriminate.
Defined.

(** A mesh of three nodes and no element. *)
Lemma simplifyMesh_no_empty_mesh_witness :
  simplifyMesh (geometry := latticeGeometry) (0, 0, 0, 0)%N cubeGrid
               (mkMesh "empty" chainNodes []) "out" 10 1
  = Ok (None, mkMesh "empty" chainNodes []).
Proof.
  apply (proj1 (simplifyMesh_no_empty_mesh (geometry := latticeGeometry)
                  (0, 0, 0, 0)%N cubeGrid (mkMesh "empty" chainNodes []) "out" 10 1%N)).
  reflexivity.
Defined.

(** * Further properties of the operations *)

(** ** The collapse map *)

Lemma target_after_cases (cand : nat -> list nat) (close : nat -> nat -> bool) (n t : nat) :
  target_after cand close n t = t \/
  exists s, target_after cand close n t = s /\ s < n /\ grabs cand close s t = true.
Proof.
  unfold target_after. destruct (find _ _) as [s|] eqn:Hf; [right|by left].
  apply find_seq_Some in Hf as (Hs & Hg & _). by exists s.
Qed.

(** X1.  For a mesh whose identifiers are the storage positions the collapse
    map has one entry per node, and every entry is the position of a node. *)
Theorem collapse_map_in_bounds (grid : GridQuery) (nodes : list Node) (eps : Z) :
  dense_ids nodes -> valid_candidates grid nodes eps ->
  length (collapseNodeIndeces grid nodes eps) = length nodes /\
  Forall (fun target => target < length nodes) (collapseNodeIndeces grid nodes eps).
Proof.
  intros Hdense Hvalid. split; [apply length_collapseNodeIndeces|].
  rewrite collapseNodeIndeces_closed_form by done. unfold collapse_closed_form.
  apply Forall_forall. intros x Hx. apply list_elem_of_In, in_map_iff in Hx as (t & <- & Ht).
  apply in_seq in Ht.
  destruct (target_after_cases (candidates grid nodes eps) (closer nodes eps)
              (length nodes) t) as [->|(s & -> & Hs & _)]; cbv beta; lia.
Qed.

Lemma collapse_map_in_bounds_witness :
  Forall (fun target => target < 3) (collapseNodeIndeces singleCellGrid chainNodes 10).
Proof.
  apply (collapse_map_in_bounds singleCellGrid chainNodes 10).
  - reflexivity.
  - apply valid_candidates_singleCellGrid.
Defined.

(** X2.  A node that the map moves is moved onto one of the nodes that
    tested it, and lies closer than eps to that node (for a mesh in the
    range where the arithmetic of the source is exact). *)
Theorem collapse_target_is_closer (grid : GridQuery) (nodes : list Node) (eps : Z) (k : nat) :
  dense_ids nodes -> binary64_exact nodes eps = true ->
  valid_candidates grid nodes eps ->
  k < length nodes ->
  collapseNodeIndeces grid nodes eps !!! k <> k ->
  let target := collapseNodeIndeces grid nodes eps !!! k in
  k ∈ candidates grid nodes eps target /\
  (sqrDist (getCoords (nodes !!! target)) (getCoords (nodes !!! k)) < eps * eps)%Z.
Proof.
  intros Hdense _ Hvalid Hk. rewrite collapseNodeIndeces_closed_form by done.
  unfold collapse_closed_form. rewrite lookup_total_map_seq by done.
  destruct (target_after_cases (candidates grid nodes eps) (closer nodes eps)
              (length nodes) k) as [->|(s & -> & Hs & Hg)]; [done|].
  intros _. simpl. unfold grabs in Hg. apply andb_true_iff in Hg as [Hr _].
  split; [by apply (reaches_cand _ (closer nodes eps))|].
  unfold reaches in Hr. apply andb_true_iff in Hr as [_ Hc]. by apply Z.ltb_lt in Hc.
Qed.

Lemma collapse_target_is_closer_witness :
  (sqrDist (getCoords (chainNodes !!! 1%nat)) (getCoords (chainNodes !!! 2%nat)) < 10 * 10)%Z.
Proof.
  apply (collapse_target_is_closer singleCellGrid chainNodes 10 2).
  - reflexivity.
  - reflexivity.
  - apply valid_candidates_singleCellGrid.
  - simpl. lia.
  - vm_compute. discriminate.
Defined.

Lemma sqrDist_nonneg (p q : Point) : (0 <= sqrDist p q)%Z.
Proof.
  destruct p as [[px py] pz], q as [[qx qy] qz]. unfold sqrDist.
  pose proof (Z.square_nonneg (px - qx)). pose proof (Z.square_nonneg (py - qy)).
  pose proof (Z.square_nonneg (pz - qz)). lia.
Qed.

Lemma collapse_identity_if_unreached (grid : GridQuery) (nodes : list Node) (eps : Z) :
  dense_ids nodes -> valid_candidates grid nodes eps ->
  (forall s t, s < length nodes -> t < length nodes ->
     reaches (candidates grid nodes eps) (closer nodes eps) s t = false) ->
  collapseNodeIndeces grid nodes eps = seq 0 (length nodes).
Proof.
  intros Hdense Hvalid Hnone. rewrite collapseNodeIndeces_closed_form by done.
  unfold collapse_closed_form. rewrite <- (map_id (seq 0 (length nodes))) at 2.
  apply map_ext_in. intros t Ht. apply in_seq in Ht.
  destruct (target_after_cases (candidates grid nodes eps) (closer nodes eps)
              (length nodes) t) as [->|(s & _ & Hs & Hg)]; [done|].
  unfold grabs in Hg. rewrite Hnone in Hg by lia. done.
Qed.

Lemma filter_none {A} (P : A -> bool) (l : list A) :
  (forall x, In x l -> P x = false) -> List.filter P l = [].
Proof.
  induction l as [|x l IH]; intros H; simpl; [done|].
  rewrite (H x) by (by left). apply IH. intros y Hy. apply H. by right.
Qed.

Lemma count_of_identity (grid : GridQuery) (nodes : list Node) (eps : Z) :
  collapseNodeIndeces grid nodes eps = seq 0 (length nodes) ->
  getNCollapsableNodes grid nodes eps = 0.
Proof.
  intros Hid. rewrite getNCollapsableNodes_filter, Hid.
  rewrite filter_none; [done|]. intros i Hi. apply in_seq in Hi.
  rewrite (list_lookup_total_correct _ _ i) by (apply lookup_seq; lia).
  by rewrite Nat.eqb_refl.
Qed.

(** X3.  With the tolerance 0 nothing is collapsed, not even nodes with the
    same coordinates: the distance test is strict. *)
Theorem zero_tolerance_collapses_nothing (grid : GridQuery) (nodes : list Node) :
  dense_ids nodes -> valid_candidates grid nodes 0 ->
  collapseNodeIndeces grid nodes 0 = seq 0 (length nodes) /\
  getNCollapsableNodes grid nodes 0 = 0.
Proof.
  intros Hdense Hvalid.
  assert (Hid : collapseNodeIndeces grid nodes 0 = seq 0 (length nodes)).
  { apply collapse_identity_if_unreached; [done..|].
    intros s t _ _. unfold reaches, closer.
    replace (_ <? 0 * 0)%Z with false; [apply andb_false_r|].
    symmetry. apply Z.ltb_ge. pose proof (sqrDist_nonneg (getCoords (nodes !!! s))
                                           (getCoords (nodes !!! t))). lia. }
  split; [done|]. by apply count_of_identity.
Qed.

Lemma zero_tolerance_collapses_nothing_witness :
  getNCollapsableNodes singleCellGrid (getNodes lineAndTriangle) 0 = 0.
Proof.
  apply (zero_tolerance_collapses_nothing singleCellGrid (getNodes lineAndTriangle)).
  - reflexivity.
  - apply valid_candidates_singleCellGrid.
Defined.

(** ** The staged identifiers and the new node vector *)

Lemma at_index_lookup {A} (d : A) (l : list A) (i : unsigned) (x : A) :
  l !! N.to_nat i = Some x -> at_index d l i = x.
Proof.
  revert i. induction l as [|y l IH]; intros i Hx; [done|]. simpl.
  destruct (N.eqb_spec i 0) as [->|Hne].
  - simpl in Hx. by injection Hx.
  - apply IH. rewrite N2Nat.inj_pred.
    destruct (N.to_nat i) as [|m] eqn:Hm; [lia|]. done.
Qed.

Lemma construct_step_coords (id_map : list nat) (ns nw : list Node) (k : nat) :
  map getCoords (construct_step id_map (ns, nw) k).1 = map getCoords ns.
Proof.
  unfold construct_step.
  assert (forall id, map getCoords (<[k := setID id (ns !!! k)]> ns) = map getCoords ns) as H.
  { intros id. apply list_eq. intros i. rewrite !list_lookup_fmap.
    destruct (decide (i = k)) as [->|Hne]; [|by rewrite list_lookup_insert_ne].
    destruct (ns !! k) as [nd|] eqn:Hnd.
    - rewrite list_lookup_insert_eq by (by eapply lookup_lt_Some).
      by rewrite (list_lookup_total_correct _ _ _ Hnd).
    - rewrite list_insert_ge by (by apply lookup_ge_None). by rewrite Hnd. }
  destruct (getID (ns !!! k) =? id_map !!! k); simpl; apply H.
Qed.

Lemma constructNewNodesArray_coords (id_map : list nat) (nodes : list Node) :
  map getCoords (constructNewNodesArray id_map nodes).1 = map getCoords nodes.
Proof.
  unfold constructNewNodesArray. generalize (seq 0 (length nodes)) as ks.
  intros ks.
  assert (forall st, map getCoords (fold_left (construct_step id_map) ks st).1
                     = map getCoords st.1) as H.
  { induction ks as [|k ks IH]; intros st; simpl; [done|].
    rewrite IH. destruct st as [ns nw]. apply construct_step_coords. }
  apply H.
Qed.

Lemma resetNodeIDs_restores (staged nodes : list Node) :
  dense_ids nodes -> map getCoords staged = map getCoords nodes ->
  resetNodeIDs staged = nodes.
Proof.
  intros Hdense Hcoords. unfold resetNodeIDs. apply list_eq. intros i.
  rewrite list_lookup_imap.
  assert (Hc : map getCoords staged !! i = map getCoords nodes !! i) by (by rewrite Hcoords).
  rewrite !list_lookup_fmap in Hc.
  destruct (staged !! i) as [nd'|] eqn:Hs, (nodes !! i) as [nd|] eqn:Hn; simpl in *; try done.
  injection Hc as Hc.
  assert (getID nd = i) as Hid.
  { rewrite <- (list_lookup_total_correct _ _ _ Hn). apply dense_ids_lookup; [done|].
    by eapply lookup_lt_Some. }
  destruct nd as [c id], nd' as [c' id']. simpl in *. subst. done.
Qed.

Lemma withNodes_same (m : Mesh) : withNodes m (getNodes m) = m.
Proof. by destruct m. Qed.

Section SideChannel.

Context {geometry : ElementGeometry}.
Variable indeterminate : array4.
Variable grid : GridQuery.

(** X4.  The operations use the identifiers of the nodes of the mesh as a
    channel for the collapse map and put them back: for a mesh whose
    identifiers are the storage positions, the mesh after [collapseNodes], and
    after every [simplifyMesh] that returns, is the mesh before the call. *)
Theorem revision_restores_mesh (_mesh : Mesh) (new_mesh_name : string) (eps : Z)
    (min_elem_dim : unsigned) :
  dense_ids (getNodes _mesh) ->
  (collapseNodes grid _mesh new_mesh_name eps).2 = _mesh /\
  forall r after,
    simplifyMesh indeterminate grid _mesh new_mesh_name eps min_elem_dim = Ok (r, after) ->
    after = _mesh.
Proof.
  intros Hdense.
  pose proof (constructNewNodesArray_coords
                (collapseNodeIndeces grid (getNodes _mesh) eps) (getNodes _mesh)) as Hc.
  split.
  - unfold collapseNodes. destruct (constructNewNodesArray _ _) as [staged new_nodes].
    simpl in *. rewrite (resetNodeIDs_restores staged (getNodes _mesh)) by done.
    apply withNodes_same.
  - intros r after. unfold simplifyMesh.
    destruct (getNElements _mesh =? 0); [by intros [= _ <-]|].
    destruct (constructNewNodesArray _ _) as [staged new_nodes]. simpl in Hc.
    rewrite (resetNodeIDs_restores staged (getNodes _mesh)) by done.
    rewrite withNodes_same.
    destruct (simplifyElements _ _ _ _ _ _) as [new_elements| |]; [|by intros [= _ <-]|done].
    destruct new_elements; by intros [= _ <-].
Qed.

End SideChannel.

Lemma revision_restores_mesh_witness :
  (collapseNodes singleCellGrid lineAndTriangle "out" 1).2 = lineAndTriangle.
Proof.
  apply (revision_restores_mesh (geometry := latticeGeometry) (0, 0, 0, 0)%N singleCellGrid
           lineAndTriangle "out" 1 1%N).
  reflexivity.
Defined.

Lemma dense_ids_imap (coords : nat -> Point) (l : list nat) :
  dense_ids (imap (fun i p => mkNode (coords p) i) l).
Proof.
  unfold dense_ids. rewrite length_imap. apply list_eq. intros i.
  rewrite list_lookup_fmap, list_lookup_imap.
  destruct (l !! i) as [p|] eqn:Hp; simpl.
  - symmetry. apply lookup_seq. split; [done|]. by eapply lookup_lt_Some.
  - symmetry. apply lookup_seq_ge. by apply lookup_ge_None.
Qed.

Lemma construct_prefix_valid (id_map : list nat) (nodes : list Node) (k : nat) :
  dense_ids nodes -> backward id_map -> length id_map = length nodes ->
  k <= length nodes ->
  let st := fold_left (construct_step id_map) (seq 0 k) (nodes, []) in
  forall j, j < k -> getID (st.1 !!! j) < length st.2.
Proof.
  intros Hdense Hback Hlen. induction k as [|k IH]; intros Hk; [simpl; lia|].
  rewrite seq_S, fold_left_app. simpl.
  pose proof (construct_prefix id_map nodes k Hdense ltac:(lia)) as (Hl & Hrest & _).
  specialize (IH ltac:(lia)).
  destruct (fold_left (construct_step id_map) (seq 0 k) (nodes, [])) as [ns nw].
  simpl in *.
  assert (Hnd : getID (ns !!! k) = k).
  { rewrite list_lookup_total_alt, Hrest, <- list_lookup_total_alt by done.
    apply dense_ids_lookup; [done|lia]. }
  rewrite Hnd. intros j Hj.
  destruct (k =? id_map !!! k) eqn:Hkeep; simpl.
  - rewrite length_app. simpl.
    destruct (decide (j = k)) as [->|Hne].
    + rewrite list_lookup_total_insert_eq by lia. simpl. lia.
    + rewrite list_lookup_total_insert_ne by done. specialize (IH j ltac:(lia)). lia.
  - destruct (decide (j = k)) as [->|Hne].
    + rewrite list_lookup_total_insert_eq by lia. simpl.
      apply Nat.eqb_neq in Hkeep. apply IH.
      specialize (Hback k ltac:(lia)). lia.
    + rewrite list_lookup_total_insert_ne by done. apply IH. lia.
Qed.

Lemma length_staged (id_map : list nat) (nodes : list Node) :
  length (constructNewNodesArray id_map nodes).1 = length nodes.
Proof.
  rewrite <- (length_map getCoords), constructNewNodesArray_coords. apply length_map.
Qed.

Lemma element_in_mesh_getNode (n : nat) (e : Element) (i : unsigned) :
  element_in_mesh n e -> (i < getNNodes e)%N -> getNode e i < n.
Proof.
  intros [Hlen Hall] Hi. unfold getNode.
  destruct (lookup_lt_is_Some_2 (elemNodes e) (N.to_nat i)) as [p Hp]; [lia|].
  rewrite (at_index_lookup _ _ _ _ Hp).
  rewrite Forall_forall in Hall. apply Hall. by eapply list_elem_of_lookup_2.
Qed.

Lemma elem_of_rangeN (a b i : unsigned) : i ∈ rangeN a b -> (a <= i < b)%N.
Proof.
  unfold rangeN. intros Hi. apply list_elem_of_In, in_map_iff in Hi as (m & <- & Hm).
  apply in_seq in Hm. lia.
Qed.

(** X5.  [collapseNodes] keeps every element: the new mesh has as many
    elements as the mesh, each with the type, the material value and the
    number of nodes of its source.  If no entry of the collapse map points to
    a later node, every node reference of the new elements is a position of
    the new node vector. *)
Theorem collapseNodes_keeps_elements (grid : GridQuery) (_mesh : Mesh)
    (new_mesh_name : string) (eps : Z) :
  dense_ids (getNodes _mesh) ->
  Forall (element_in_mesh (length (getNodes _mesh))) (getElements _mesh) ->
  let new_mesh := (collapseNodes grid _mesh new_mesh_name eps).1 in
  map getGeomType (getElements new_mesh) = map getGeomType (getElements _mesh) /\
  map getValue (getElements new_mesh) = map getValue (getElements _mesh) /\
  (backward (collapseNodeIndeces grid (getNodes _mesh) eps) ->
   Forall (element_in_mesh (length (getNodes new_mesh))) (getElements new_mesh)).
Proof.
  intros Hdense Hwf new_mesh. subst new_mesh. unfold collapseNodes.
  pose proof (construct_prefix_valid (collapseNodeIndeces grid (getNodes _mesh) eps)
                (getNodes _mesh) (length (getNodes _mesh)) Hdense) as Hvalid.
  pose proof (length_staged (collapseNodeIndeces grid (getNodes _mesh) eps)
                (getNodes _mesh)) as Hlen.
  unfold constructNewNodesArray in *.
  destruct (fold_left _ _ _) as [staged new_nodes]. simpl in *.
  unfold copyElementVector. rewrite !map_map. simpl.
  split; [done|]. split; [done|].
  intros Hback. specialize (Hvalid Hback (length_collapseNodeIndeces _ _ _) (le_n _)).
  apply Forall_forall. intros e' He'.
  apply list_elem_of_In, in_map_iff in He' as (e & <- & He).
  rewrite Forall_forall in Hwf. specialize (Hwf e (proj2 (list_elem_of_In _ _) He)).
  split.
  - simpl. unfold nodes_at. rewrite length_map, length_rangeN.
    unfold getNNodes. simpl. lia.
  - simpl. unfold nodes_at, ptr. apply Forall_forall. intros p Hp.
    apply list_elem_of_In, in_map_iff in Hp as (i & <- & Hi).
    apply list_elem_of_In, elem_of_rangeN in Hi.
    unfold nodeID. apply Hvalid. eapply element_in_mesh_getNode; [done|lia].
Qed.

Lemma collapseNodes_keeps_elements_witness :
  map getGeomType (getElements (collapseNodes singleCellGrid lineAndTriangle "out" 1).1)
  = [LINE; TRIANGLE].
Proof.
  apply (collapseNodes_keeps_elements singleCellGrid lineAndTriangle "out" 1).
  - reflexivity.
  - repeat constructor; simpl; lia.
Defined.

(** ** Collapsing twice *)

Lemma kept_spec (id_map : list nat) (n x : nat) :
  In x (kept id_map n) <-> x < n /\ id_map !!! x = x.
Proof.
  unfold kept. rewrite filter_In, in_seq, Nat.eqb_eq. split; intros [? ?]; split; lia.
Qed.

Lemma NoDup_kept (id_map : list nat) (n : nat) : NoDup (kept id_map n).
Proof. unfold kept. apply NoDup_ListNoDup, List.NoDup_filter, List.seq_NoDup. Qed.

Lemma lookup_total_new_nodes (nodes : list Node) (K : list nat) (i : nat) :
  i < length K ->
  getCoords (imap (fun i p => mkNode (getCoords (nodes !!! p)) i) K !!! i)
  = getCoords (nodes !!! (K !!! i)).
Proof.
  intros Hi. destruct (lookup_lt_is_Some_2 K i Hi) as [p Hp].
  rewrite (list_lookup_total_correct K i p Hp).
  erewrite list_lookup_total_correct; [|by rewrite list_lookup_imap, Hp]. done.
Qed.

(** X6.  Collapsing is idempotent on a grid that offers, of two nodes closer
    than eps, one as a test node of the other: in the node vector of the mesh
    that [collapseNodes] returns a second collapse with the same tolerance
    moves no node, and the count of collapsible nodes is 0. *)
Theorem second_collapse_moves_nothing (grid : GridQuery) (_mesh : Mesh)
    (new_mesh_name : string) (eps : Z) :
  dense_ids (getNodes _mesh) ->
  binary64_exact (getNodes _mesh) eps = true ->
  valid_candidates grid (getNodes _mesh) eps ->
  tests_close_pairs grid (getNodes _mesh) eps ->
  let new_mesh := (collapseNodes grid _mesh new_mesh_name eps).1 in
  valid_candidates grid (getNodes new_mesh) eps ->
  collapseNodeIndeces grid (getNodes new_mesh) eps
    = seq 0 (length (getNodes new_mesh)) /\
  getNCollapsableNodes grid (getNodes new_mesh) eps = 0.
Proof.
  intros Hdense _ Hvalid Htests new_mesh.
  assert (Hnew : getNodes new_mesh =
            imap (fun i p => mkNode (getCoords (getNodes _mesh !!! p)) i)
                 (kept (collapseNodeIndeces grid (getNodes _mesh) eps)
                       (length (getNodes _mesh)))).
  { subst new_mesh. unfold collapseNodes.
    rewrite <- (constructNewNodesArray_kept _ _ Hdense).
    by destruct (constructNewNodesArray _ (getNodes _mesh)). }
  rewrite Hnew. clear Hnew new_mesh.
  set (nodes := getNodes _mesh) in *.
  set (K := kept (collapseNodeIndeces grid nodes eps) (length nodes)).
  set (new := imap _ K). intros Hvalid'.
  assert (Hid : collapseNodeIndeces grid new eps = seq 0 (length new)).
  { apply collapse_identity_if_unreached; [apply dense_ids_imap|done|].
    subst new. rewrite length_imap. intros s t Hs Ht.
    destruct (reaches _ _ s t) eqn:Hreach; [exfalso|done].
    apply reaches_spec in Hreach as (Hne & _ & Hclose).
    unfold closer in Hclose. rewrite !lookup_total_new_nodes in Hclose by done.
    destruct (lookup_lt_is_Some_2 K s Hs) as [a Ha].
    destruct (lookup_lt_is_Some_2 K t Ht) as [b Hb].
    rewrite (list_lookup_total_correct K s a Ha) in Hclose.
    rewrite (list_lookup_total_correct K t b Hb) in Hclose.
    assert (a <> b) as Hab.
    { intros ->. apply Hne. by eapply (NoDup_lookup K), Hb; [apply NoDup_kept|]. }
    assert (In a K) as HaK by (by eapply list_elem_of_In, list_elem_of_lookup_2).
    assert (In b K) as HbK by (by eapply list_elem_of_In, list_elem_of_lookup_2).
    apply kept_spec in HaK as [Han Sa]. apply kept_spec in HbK as [Hbn Sb].
    assert (closer nodes eps a b = false) as Hno.
    { apply (survivors_not_closer grid); [done..| | |done];
        (split; [by rewrite length_collapseNodeIndeces|done]). }
    unfold closer in Hno. congruence. }
  split; [done|]. by apply count_of_identity.
Qed.

Lemma second_collapse_moves_nothing_witness :
  getNCollapsableNodes singleCellGrid
    (getNodes (collapseNodes singleCellGrid (mkMesh "chain" chainNodes []) "out" 10).1) 10
  = 0.
Proof.
  apply (second_collapse_moves_nothing singleCellGrid (mkMesh "chain" chainNodes []) "out" 10).
  - reflexivity.
  - reflexivity.
  - apply valid_candidates_singleCellGrid.
  - apply tests_close_pairs_singleCellGrid.
  - apply valid_candidates_singleCellGrid.
Defined.

(** ** Subdivision *)

(** [subdivideElement] has a rule for quadrilaterals, hexahedra, pyramids
    and prisms and reports failure for every other type without touching the
    output collection; the children follow the elements already there. *)
Lemma subdivideElement_appends (st : list Node) (element : Element)
    (nodes : list Node) (elements : list Element) :
  (subdivideElement st element nodes elements).1 = subdividable element /\
  exists children,
    (subdivideElement st element nodes elements).2 = elements ++ children /\
    length children =
      match getGeomType element with
      | QUAD => 2 | PYRAMID => 2 | PRISM => 3 | HEXAHEDRON => 6 | _ => 0
      end /\
    Forall (fun child =>
              getValue child = getValue element /\
              getGeomType child =
                match getGeomType element with QUAD => TRIANGLE | _ => TETRAHEDRON end)
           children.
Proof.
  unfold subdivideElement, subdividable, subdivideQuad, subdivideHex, subdividePyramid,
    subdividePrism.
  destruct (getGeomType element); simpl; (split; [done|]);
    first [ by exists []; rewrite app_nil_r
          | rewrite <- ?app_assoc; simpl; eexists; (split; [reflexivity|]);
            (split; [reflexivity|]); repeat constructor ].
Qed.

(** X7.  [subdivideElement] succeeds exactly on quadrilaterals, hexahedra,
    pyramids and prisms.  A quadrilateral gives 2 triangles, a pyramid 2, a
    prism 3 and a hexahedron 6 tetrahedra, appended behind the elements
    already there, each with the material value of its parent; for the other
    types the output collection keeps its length. *)
Theorem subdivideElement_children (st : list Node) (element : Element)
    (nodes : list Node) (elements : list Element) :
  let result := subdivideElement st element nodes elements in
  result.1 = subdividable element /\
  appended (fun child =>
              getValue child = getValue element /\
              getGeomType child =
                match getGeomType element with QUAD => TRIANGLE | _ => TETRAHEDRON end)
           elements result.2 /\
  length result.2 =
    length elements +
    match getGeomType element with
    | QUAD => 2 | PYRAMID => 2 | PRISM => 3 | HEXAHEDRON => 6 | _ => 0
    end.
Proof.
  destruct (subdivideElement_appends st element nodes elements)
    as (Hok & children & Hout & Hlen & Hall).
  simpl. split; [done|]. split; [by exists children|].
  by rewrite Hout, length_app, Hlen.
Qed.

Lemma copyNodeVector_dense (nodes : list Node) :
  dense_ids nodes -> copyNodeVector nodes = nodes.
Proof.
  intros Hdense. unfold copyNodeVector. apply list_eq. intros i.
  rewrite list_lookup_imap. destruct (nodes !! i) as [nd|] eqn:Hn; simpl; [|done].
  assert (getID nd = i) as Hid.
  { rewrite <- (list_lookup_total_correct _ _ _ Hn). apply dense_ids_lookup; [done|].
    by eapply lookup_lt_Some. }
  destruct nd. simpl in *. by subst.
Qed.

Lemma map_at_index_seq {A} (d : A) (l : list A) :
  map (fun i => at_index d l (N.of_nat i)) (seq 0 (length l)) = l.
Proof.
  apply list_eq. intros i. rewrite list_lookup_fmap.
  destruct (l !! i) as [x|] eqn:Hx.
  - rewrite lookup_seq_lt by (by eapply lookup_lt_Some). simpl. f_equal.
    apply at_index_lookup. by rewrite Nat2N.id.
  - rewrite lookup_seq_ge by (by apply lookup_ge_None). done.
Qed.

Lemma elementIDs_dense (st : list Node) (e : Element) :
  dense_ids st -> element_in_mesh (length st) e ->
  elementIDs st e = elemNodes e.
Proof.
  intros Hdense [Hlen Hall]. unfold elementIDs.
  replace (getNNodes e) with (N.of_nat (length (elemNodes e))) by lia.
  rewrite rangeN_of_nat, map_map.
  rewrite <- (map_at_index_seq 0 (elemNodes e)) at 2.
  apply map_ext_in. intros i Hi. apply in_seq in Hi. unfold nodeID, getNode.
  apply dense_ids_lookup; [done|].
  destruct (lookup_lt_is_Some_2 (elemNodes e) i) as [p Hp]; [lia|].
  rewrite (at_index_lookup 0 _ _ p) by (by rewrite Nat2N.id).
  rewrite Forall_forall in Hall. apply Hall. by eapply list_elem_of_lookup_2.
Qed.

Lemma copyElement_same (st : list Node) (e : Element) (nodes : list Node) :
  dense_ids st -> element_in_mesh (length st) e -> copyElement st e nodes = e.
Proof.
  intros Hdense Hwf. unfold copyElement.
  change (nodes_at st e nodes (rangeN 0 (getNNodes e))) with (elementIDs st e).
  rewrite elementIDs_dense by done. by destruct e.
Qed.

Section SubdivideMesh.

Context {geometry : ElementGeometry}.

Lemma subdivideElements_exit (st nodes : list Node) (elements new_elements : list Element) :
  (Exists (fun e => NonCoplanar (validate st e) = true /\ subdividable e = false)
          elements /\
   subdivideElements st nodes elements new_elements = UnknownType) \/
  (Forall (fun e => ~ (NonCoplanar (validate st e) = true /\ subdividable e = false))
          elements /\
   exists added,
     subdivideElements st nodes elements new_elements = Finished (new_elements ++ added) /\
     length elements <= length added /\
     Forall (fun child => exists e, In e elements /\ getValue child = getValue e) added).
Proof.
  revert new_elements. induction elements as [|e elements IH]; intros new_elements.
  - right. split; [constructor|]. exists []. by rewrite app_nil_r.
  - cbn [subdivideElements].
    destruct (NonCoplanar (validate st e)) eqn:Hflag.
    + destruct (subdivideElement_appends st e nodes new_elements)
        as (Hok & children & Hout & Hlen & Hchildren).
      destruct (subdivideElement st e nodes new_elements) as [ok out]. simpl in *. subst.
      destruct (subdividable e) eqn:Hsub; simpl.
      * destruct (IH (new_elements ++ children)) as [[Hex Hres]|(Hall & added & Hres & Hlen' & Hval)].
        -- left. split; [by right|done].
        -- right. split; [constructor; [intros [_ ?]; congruence|done]|].
           exists (children ++ added). rewrite app_assoc. split; [done|].
           split.
           ++ rewrite length_app. simpl.
              assert (1 <= length children)
                by (rewrite Hlen; unfold subdividable in Hsub;
                    destruct (getGeomType e); (done || lia)).
              lia.
           ++ apply Forall_app. split.
              ** eapply Forall_impl; [exact Hchildren|]. intros c [Hc _]. exists e.
                 split; [by left|done].
              ** eapply Forall_impl; [exact Hval|]. intros c (e' & He' & Hc). exists e'.
                 split; [by right|done].
      * left. split; [by left|done].
    + destruct (IH (new_elements ++ [copyElement st e nodes]))
        as [[Hex Hres]|(Hall & added & Hres & Hlen' & Hval)].
      * left. split; [by right|done].
      * right. split; [constructor; [intros [? _]; congruence|done]|].
        exists (copyElement st e nodes :: added). rewrite <- app_assoc in Hres.
        split; [done|]. split; [simpl; lia|].
        constructor.
        -- exists e. split; [by left|done].
        -- eapply Forall_impl; [exact Hval|]. intros c (e' & He' & Hc). exists e'.
           split; [by right|done].
Qed.

(** X8.  [subdivideMesh] returns no mesh exactly when the mesh has no element
    or holds an element that is flagged as not coplanar and is a line, a
    triangle or a tetrahedron.  A mesh that it returns has at least as many
    elements as the mesh, and the material value of each of them is that of
    an element of the mesh. *)
Theorem subdivideMesh_result (_mesh : Mesh) (new_mesh_name : string) :
  (subdivideMesh _mesh new_mesh_name = None <->
   getElements _mesh = [] \/
   Exists (fun e => NonCoplanar (validate (getNodes _mesh) e) = true /\
                    subdividable e = false) (getElements _mesh)) /\
  (forall m, subdivideMesh _mesh new_mesh_name = Some m ->
     getName m = new_mesh_name /\
     getNodes m = copyNodeVector (getNodes _mesh) /\
     length (getElements _mesh) <= length (getElements m) /\
     Forall (fun child => exists e, In e (getElements _mesh) /\ getValue child = getValue e)
            (getElements m)).
Proof.
  unfold subdivideMesh, getNElements.
  destruct (getElements _mesh) as [|e0 elements] eqn:Helems.
  - simpl. split; [|done]. split; [by left|done].
  - cbn [length Nat.eqb].
    destruct (subdivideElements_exit (getNodes _mesh) (copyNodeVector (getNodes _mesh))
                (e0 :: elements) []) as [[Hex ->]|(Hall & added & -> & Hlen & Hval)].
    + split; [|done]. split; [by right|done].
    + simpl in *. destruct added as [|a added]; [simpl in Hlen; lia|].
      split.
      * split; [done|]. intros [?|Hex]; [done|].
        apply Exists_exists in Hex as (e & He & Hstop).
        rewrite Forall_forall in Hall. by destruct (Hall e He).
      * intros m [= <-]. simpl. done.
Qed.

(** X9.  [subdivideMesh] leaves a mesh without flagged elements as it is:
    for a mesh whose identifiers are the storage positions and whose
    elements refer to its nodes, the result is the mesh under its new name. *)
Theorem subdivideMesh_planar_mesh (_mesh : Mesh) (new_mesh_name : string) :
  dense_ids (getNodes _mesh) ->
  getElements _mesh <> [] ->
  Forall (element_in_mesh (length (getNodes _mesh))) (getElements _mesh) ->
  Forall (fun e => NonCoplanar (validate (getNodes _mesh) e) = false) (getElements _mesh) ->
  subdivideMesh _mesh new_mesh_name
    = Some (mkMesh new_mesh_name (getNodes _mesh) (getElements _mesh)).
Proof.
  intros Hdense Hne Hwf Hplanar. unfold subdivideMesh, getNElements.
  destruct (getElements _mesh) as [|e0 elements] eqn:Helems; [done|].
  cbn [length Nat.eqb]. rewrite copyNodeVector_dense by done.
  assert (forall els acc,
            Forall (element_in_mesh (length (getNodes _mesh))) els ->
            Forall (fun e => NonCoplanar (validate (getNodes _mesh) e) = false) els ->
            subdivideElements (getNodes _mesh) (getNodes _mesh) els acc
              = Finished (acc ++ els)) as Hloop.
  { induction els as [|e els IH]; intros acc Hw Hp; simpl; [by rewrite app_nil_r|].
    apply Forall_cons in Hw as [Hwe Hw]. apply Forall_cons in Hp as [Hpe Hp].
    rewrite Hpe, copyElement_same by done. rewrite IH by done.
    by rewrite <- app_assoc. }
  rewrite Hloop by done. done.
Qed.

End SubdivideMesh.

Lemma subdivideMesh_planar_mesh_witness :
  subdivideMesh (geometry := latticeGeometry) lineAndTriangle "out"
  = Some (mkMesh "out" (getNodes lineAndTriangle) (getElements lineAndTriangle)).
Proof.
  apply (subdivideMesh_planar_mesh (geometry := latticeGeometry) lineAndTriangle "out").
  - reflexivity.
  - discriminate.
  - repeat constructor; simpl; lia.
  - repeat constructor.
Defined.

Lemma subdivideMesh_result_witness :
  length (getElements lineAndTriangle)
  <= length (getElements (mkMesh "out" (getNodes lineAndTriangle)
                                 (getElements lineAndTriangle))).
Proof.
  destruct (proj2 (subdivideMesh_result (geometry := latticeGeometry) lineAndTriangle "out")
              (mkMesh "out" (getNodes lineAndTriangle) (getElements lineAndTriangle))
              eq_refl) as (_ & _ & Hlen & _).
  exact Hlen.
Defined.

(** ** What [simplifyMesh] puts into the new mesh *)

Lemma appended_refl (P : Element -> Prop) (l : list Element) : appended P l l.
Proof. exists []. split; [by rewrite app_nil_r|constructor]. Qed.

Lemma appended_one (P : Element -> Prop) (l : list Element) (x : Element) :
  P x -> appended P l (l ++ [x]).
Proof. intros Hx. exists [x]. split; [done|by constructor]. Qed.

Lemma appended_trans (P : Element -> Prop) (a b c : list Element) :
  appended P a b -> appended P b c -> appended P a c.
Proof.
  intros (x & -> & Hx) (y & -> & Hy). exists (x ++ y).
  split; [by rewrite app_assoc|by apply Forall_app].
Qed.

Lemma appended_impl (P Q : Element -> Prop) (a b : list Element) :
  (forall x, P x -> Q x) -> appended P a b -> appended Q a b.
Proof.
  intros HPQ (x & -> & Hx). exists x. split; [done|]. by eapply Forall_impl.
Qed.

Lemma conserved_line (value min_elem_dim : unsigned) (ns : list nat) :
  min_elem_dim = 1%N -> conserved value min_elem_dim (Line ns value).
Proof. intros ->. split; [done|]. unfold getDimension. simpl. lia. Qed.

Lemma conserved_tri (value min_elem_dim : unsigned) (ns : list nat) :
  (min_elem_dim < 3)%N -> conserved value min_elem_dim (Tri ns value).
Proof. intros H. split; [done|]. unfold getDimension. simpl. lia. Qed.

Lemma conserved_quad (value min_elem_dim : unsigned) (ns : list nat) :
  (min_elem_dim < 3)%N -> conserved value min_elem_dim (Quad ns value).
Proof. intros H. split; [done|]. unfold getDimension. simpl. lia. Qed.

Lemma conserved_solid (value min_elem_dim : unsigned) (e : Element) :
  getValue e = value -> getDimension e = 3%N -> conserved value min_elem_dim e.
Proof. intros Hv Hd. split; [done|]. rewrite Hd. done. Qed.

Section Conservation.

Context {geometry : ElementGeometry}.
Variable indeterminate : array4.
Variables (st nodes : list Node) (min_elem_dim : unsigned).

Lemma constructLine_conserved (element line : Element) :
  min_elem_dim = 1%N ->
  constructLine st element nodes = Ok line ->
  conserved (getValue element) min_elem_dim line.
Proof.
  intros Hmin. unfold constructLine. destruct (find _ _); [|done].
  intros [= <-]. by apply conserved_line.
Qed.

Lemma constructTri_conserved (element tri : Element) :
  (min_elem_dim < 3)%N ->
  constructTri st element nodes = Ok tri ->
  conserved (getValue element) min_elem_dim tri.
Proof.
  intros Hmin. unfold constructTri. destruct (first_some _ _); [|done].
  intros [= <-]. by apply conserved_tri.
Qed.

Lemma reorderQuad_is_quad (value : unsigned) (is_ : list unsigned) (new_nodes : list nat) :
  exists q, reorderQuad nodes value is_ new_nodes = Quad q value.
Proof.
  revert new_nodes. induction is_ as [|i is_ IH]; intros new_nodes; simpl.
  - by eexists.
  - destruct (none _); [by eexists|apply IH].
Qed.

Lemma constructFourNodeElement_kind (element elem : Element) (floor : unsigned) :
  constructFourNodeElement st element nodes floor = Some elem ->
  getValue elem = getValue element /\
  (getGeomType elem = QUAD /\ (floor < 3)%N \/ getGeomType elem = TETRAHEDRON).
Proof.
  unfold constructFourNodeElement.
  destruct (isCoplanar _ _ _ _); cbn [andb negb].
  - destruct (N.ltb_spec floor 3); [|done].
    destruct (reorderQuad_is_quad (getValue element) (rangeN 1 3)
                (firstUniqueNodes st element nodes)) as [q ->].
    intros [= <-]. split; [done|]. by left.
  - intros [= <-]. split; [done|]. by right.
Qed.

Lemma constructFourNodeElement_conserved (element elem : Element) :
  constructFourNodeElement st element nodes min_elem_dim = Some elem ->
  conserved (getValue element) min_elem_dim elem.
Proof.
  intros H. apply constructFourNodeElement_kind in H as [Hv [[Ht Hmin]|Ht]].
  - split; [done|]. unfold getDimension. rewrite Ht. lia.
  - apply conserved_solid; [done|]. unfold getDimension. by rewrite Ht.
Qed.

Lemma reducePrism_conserved (org_elem : Element) (n_unique_nodes count : unsigned)
    (new_elements out : list Element) :
  reducePrism st org_elem n_unique_nodes nodes new_elements min_elem_dim = Ok (count, out) ->
  appended (conserved (getValue org_elem) min_elem_dim) new_elements out.
Proof.
  unfold reducePrism.
  destruct (n_unique_nodes =? 5)%N.
  { destruct (find _ _) as [[i j]|]; [|intros [= _ <-]; apply appended_refl].
    destruct (i mod 3 =? j mod 3)%N.
    - intros [= _ <-]. eapply appended_trans; apply appended_one; by apply conserved_solid.
    - destruct (lutPrismThirdNode i j =? numeric_limits_max)%N;
        [intros [= _ <-]; apply appended_refl|].
      intros [= _ <-]. eapply appended_trans; apply appended_one; by apply conserved_solid. }
  destruct (n_unique_nodes =? 4)%N.
  { destruct (constructFourNodeElement _ _ _ _) as [elem|] eqn:Hfour;
      intros [= _ <-]; [|apply appended_refl].
    apply appended_one. by apply constructFourNodeElement_conserved. }
  destruct ((n_unique_nodes =? 3) && (min_elem_dim <? 3))%N eqn:H3.
  { apply andb_true_iff in H3 as [_ H3]. apply N.ltb_lt in H3.
    destruct (constructTri st org_elem nodes) as [tri|] eqn:Htri; [|done].
    intros [= _ <-]. apply appended_one. by apply constructTri_conserved. }
  destruct ((n_unique_nodes =? 2) && (min_elem_dim =? 1))%N eqn:H2.
  { apply andb_true_iff in H2 as [_ H2]. apply N.eqb_eq in H2.
    destruct (constructLine st org_elem nodes) as [line|] eqn:Hline; [|done].
    intros [= _ <-]. apply appended_one. by apply constructLine_conserved. }
  intros [= _ <-]. apply appended_refl.
Qed.

Lemma reducePyramid_conserved (org_elem : Element) (n_unique_nodes : unsigned)
    (new_elements out : list Element) :
  reducePyramid st org_elem n_unique_nodes nodes new_elements min_elem_dim = Ok out ->
  appended (conserved (getValue org_elem) min_elem_dim) new_elements out.
Proof.
  unfold reducePyramid.
  destruct (n_unique_nodes =? 4)%N.
  { destruct (constructFourNodeElement _ _ _ _) as [elem|] eqn:Hfour;
      intros [= <-]; [|apply appended_refl].
    apply appended_one. by apply constructFourNodeElement_conserved. }
  destruct ((n_unique_nodes =? 3) && (min_elem_dim <? 3))%N eqn:H3.
  { apply andb_true_iff in H3 as [_ H3]. apply N.ltb_lt in H3.
    destruct (constructTri st org_elem nodes) as [tri|] eqn:Htri; [|done].
    intros [= <-]. apply appended_one. by apply constructTri_conserved. }
  destruct ((n_unique_nodes =? 2) && (min_elem_dim =? 1))%N eqn:H2.
  { apply andb_true_iff in H2 as [_ H2]. apply N.eqb_eq in H2.
    destruct (constructLine st org_elem nodes) as [line|] eqn:Hline; [|done].
    intros [= <-]. apply appended_one. by apply constructLine_conserved. }
  intros [= <-]. apply appended_refl.
Qed.

Lemma reduceHex_conserved (org_elem : Element) (n_unique_nodes count : unsigned)
    (new_elements out : list Element) :
  reduceHex indeterminate st org_elem n_unique_nodes nodes new_elements min_elem_dim
    = Ok (count, out) ->
  appended (conserved (getValue org_elem) min_elem_dim) new_elements out.
Proof.
  unfold reduceHex.
  destruct (n_unique_nodes =? 7)%N.
  { unfold reduceHex7. destruct (find _ _) as [[i j]|]; [|intros [= _ <-]; apply appended_refl].
    destruct ((i <? 4) && negb (j <? 4))%N; intros [= _ <-];
      eapply appended_trans; apply appended_one; by apply conserved_solid. }
  destruct (n_unique_nodes =? 6)%N.
  { destruct (first_some _ _) as [r|] eqn:Hface.
    - intros [= ->].
      assert (forall faces, first_some (reduceHex6_face st org_elem nodes new_elements) faces
                            = Some (count, out) ->
                appended (conserved (getValue org_elem) min_elem_dim) new_elements out) as H.
      { induction faces as [|f faces IH]; simpl; [done|].
        destruct (reduceHex6_face st org_elem nodes new_elements f) as [r|] eqn:Hf; [|done].
        intros [= ->]. unfold reduceHex6_face in Hf.
        destruct (_ && _) in Hf.
        - injection Hf as _ <-. apply appended_one. by apply conserved_solid.
        - destruct (_ && _) in Hf; [|done]. injection Hf as _ <-. apply appended_refl. }
      by eapply H.
    - unfold reduceHex6_split.
      destruct (find _ _) as [[[[i j] k] l]|]; [|intros [= _ <-]; apply appended_refl].
      destruct (_ || _)%N; [intros [= _ <-]; apply appended_refl|].
      destruct (reducePrism _ _ _ _ _ _) as [[n1 out1]|] eqn:H1; [|done]. simpl.
      destruct (reducePrism st _ 5%N nodes out1 min_elem_dim) as [[n2 out2]|] eqn:H2; [|done].
      simpl. intros [= _ <-].
      apply reducePrism_conserved in H1, H2. simpl in H1, H2.
      by eapply appended_trans. }
  destruct (n_unique_nodes =? 5)%N.
  { unfold reduceHex5.
    destruct (constructFourNodeElement _ _ _ _) as [tet1|] eqn:Hfour; [|done].
    apply constructFourNodeElement_kind in Hfour as [Hv Hkind].
    intros [= _ <-]. eapply appended_trans; [|apply appended_one; by apply conserved_solid].
    destruct (MeshElemType_eqb (getGeomType tet1) QUAD) eqn:Hq.
    - apply appended_one. by apply conserved_solid.
    - apply appended_one. apply conserved_solid; [done|].
      destruct Hkind as [[Ht _]|Ht]; unfold getDimension; rewrite Ht in *; done. }
  destruct (n_unique_nodes =? 4)%N.
  { destruct (constructFourNodeElement _ _ _ _) as [elem|] eqn:Hfour;
      intros [= _ <-]; [|apply appended_refl].
    apply appended_one. by apply constructFourNodeElement_conserved. }
  destruct ((n_unique_nodes =? 3) && (min_elem_dim <? 3))%N eqn:H3.
  { apply andb_true_iff in H3 as [_ H3]. apply N.ltb_lt in H3.
    destruct (constructTri st org_elem nodes) as [tri|] eqn:Htri; [|done].
    intros [= _ <-]. apply appended_one. by apply constructTri_conserved. }
  destruct (min_elem_dim =? 1)%N eqn:H1.
  { apply N.eqb_eq in H1.
    destruct (constructLine st org_elem nodes) as [line|] eqn:Hline; [|done].
    intros [= _ <-]. apply appended_one. by apply constructLine_conserved. }
  intros [= _ <-]. apply appended_refl.
Qed.

Lemma reduceElement_conserved (element : Element) (n_unique_nodes : unsigned)
    (elements out : list Element) :
  reduceElement indeterminate st element n_unique_nodes nodes elements min_elem_dim = Ok out ->
  appended (conserved (getValue element) min_elem_dim) elements out.
Proof.
  unfold reduceElement. destruct (getGeomType element).
  - intros [= <-]. apply appended_refl.
  - destruct (min_elem_dim =? 1)%N eqn:H1; [|intros [= <-]; apply appended_refl].
    apply N.eqb_eq in H1.
    destruct (constructLine st element nodes) as [line|] eqn:Hline; [|done].
    intros [= <-]. apply appended_one. by apply constructLine_conserved.
  - destruct ((n_unique_nodes =? 3) && (min_elem_dim <? 3))%N eqn:H3.
    { apply andb_true_iff in H3 as [_ H3]. apply N.ltb_lt in H3.
      destruct (constructTri st element nodes) as [tri|] eqn:Htri; [|done].
      intros [= <-]. apply appended_one. by apply constructTri_conserved. }
    destruct (min_elem_dim =? 1)%N eqn:H1; [|intros [= <-]; apply appended_refl].
    apply N.eqb_eq in H1.
    destruct (constructLine st element nodes) as [line|] eqn:Hline; [|done].
    intros [= <-]. apply appended_one. by apply constructLine_conserved.
  - destruct ((n_unique_nodes =? 3) && (min_elem_dim <? 3))%N eqn:H3.
    { apply andb_true_iff in H3 as [_ H3]. apply N.ltb_lt in H3.
      destruct (constructTri st element nodes) as [tri|] eqn:Htri; [|done].
      intros [= <-]. apply appended_one. by apply constructTri_conserved. }
    destruct (min_elem_dim =? 1)%N eqn:H1; [|intros [= <-]; apply appended_refl].
    apply N.eqb_eq in H1.
    destruct (constructLine st element nodes) as [line|] eqn:Hline; [|done].
    intros [= <-]. apply appended_one. by apply constructLine_conserved.
  - destruct (reduceHex _ _ _ _ _ _ _) as [[c o]|] eqn:Hhex; [|done].
    intros [= <-]. by eapply reduceHex_conserved.
  - apply reducePyramid_conserved.
  - destruct (reducePrism _ _ _ _ _ _) as [[c o]|] eqn:Hprism; [|done].
    intros [= <-]. by eapply reducePrism_conserved.
Qed.

Lemma subdivideElement_conserved (element : Element) (elements : list Element) :
  (min_elem_dim <= getDimension element)%N ->
  appended (conserved (getValue element) min_elem_dim) elements
           (subdivideElement st element nodes elements).2.
Proof.
  intros Hdim.
  destruct (subdivideElement_appends st element nodes elements)
    as (_ & children & -> & _ & Hchildren).
  exists children. split; [done|]. eapply Forall_impl; [exact Hchildren|].
  intros c [Hv Ht]. split; [done|]. intros _.
  unfold getDimension in *. rewrite Ht. destruct (getGeomType element); simpl in *; lia.
Qed.

Lemma simplifyElements_conserved (elements new_elements out : list Element) :
  simplifyElements indeterminate st nodes min_elem_dim elements new_elements = Finished out ->
  appended (fun c => exists e, In e elements /\ conserved (getValue e) min_elem_dim c)
           new_elements out.
Proof.
  revert new_elements. induction elements as [|e elements IH]; intros new_elements.
  - intros [= <-]. apply appended_refl.
  - cbn [simplifyElements].
    assert (Hrest : forall mid,
              appended (conserved (getValue e) min_elem_dim) new_elements mid ->
              simplifyElements indeterminate st nodes min_elem_dim elements mid = Finished out ->
              appended (fun c => exists e', In e' (e :: elements) /\
                                            conserved (getValue e') min_elem_dim c)
                       new_elements out).
    { intros mid Hmid Hloop. eapply appended_trans.
      - eapply appended_impl; [|exact Hmid]. intros c Hc. exists e. split; [by left|done].
      - eapply appended_impl; [|by apply IH]. intros c (e' & He' & Hc). exists e'.
        split; [by right|done]. }
    destruct ((getNUniqueNodes st e =? getNNodes e) && (min_elem_dim <=? getDimension e))%N
      eqn:Hfull.
    + apply andb_true_iff in Hfull as [_ Hdim]. apply N.leb_le in Hdim.
      destruct (NonCoplanar (validate st e)).
      * pose proof (subdivideElement_conserved e new_elements Hdim) as Hsub.
        destruct (subdivideElement st e nodes new_elements) as [ok mid]. simpl in Hsub.
        destruct ok; simpl; [|done]. by apply Hrest.
      * apply Hrest. apply appended_one. split; [done|]. intros _.
        unfold copyElement, getDimension in *. simpl. done.
    + destruct ((getNUniqueNodes st e <? getNNodes e) && (1 <? getNUniqueNodes st e))%N.
      * destruct (reduceElement _ _ _ _ _ _ _) as [mid|] eqn:Hred; [|done].
        apply Hrest. by eapply reduceElement_conserved.
      * apply Hrest. apply appended_refl.
Qed.

End Conservation.

Section MeshConservation.

Context {geometry : ElementGeometry}.
Variable indeterminate : array4.
Variable min_elem_dim : unsigned.
Variable grid : GridQuery.

(** X10.  Every element of a mesh that [simplifyMesh] returns has the
    material value of an element of the mesh. *)
Theorem simplifyMesh_conserves_material (_mesh : Mesh) (new_mesh_name : string) (eps : Z)
    (m after : Mesh) :
  simplifyMesh indeterminate grid _mesh new_mesh_name eps min_elem_dim = Ok (Some m, after) ->
  Forall (fun c => exists e, In e (getElements _mesh) /\ getValue c = getValue e)
         (getElements m).
Proof.
  unfold simplifyMesh. destruct (getNElements _mesh =? 0); [done|].
  destruct (constructNewNodesArray _ _) as [staged new_nodes].
  destruct (simplifyElements _ _ _ _ _ _) as [out| |] eqn:Hloop; [|done..].
  destruct out as [|o out]; [done|]. intros [= <- _]. simpl.
  assert (Hc : forall els acc res,
            simplifyElements indeterminate staged new_nodes min_elem_dim els acc
              = Finished res ->
            appended (fun c => exists e, In e els /\ getValue c = getValue e) acc res).
  { clear Hloop. intros els. induction els as [|e els IH]; intros acc res.
    - intros [= <-]. apply appended_refl.
    - cbn [simplifyElements].
      assert (Hrest : forall mid,
                appended (fun c => getValue c = getValue e) acc mid ->
                simplifyElements indeterminate staged new_nodes min_elem_dim els mid
                  = Finished res ->
                appended (fun c => exists e', In e' (e :: els) /\ getValue c = getValue e')
                         acc res).
      { intros mid Hmid Hl. eapply appended_trans.
        - eapply appended_impl; [|exact Hmid]. intros c Hcv. exists e. split; [by left|done].
        - eapply appended_impl; [|by apply IH]. intros c (e' & He' & Hcv). exists e'.
          split; [by right|done]. }
      destruct (_ && _)%N.
      + destruct (NonCoplanar _).
        * destruct (subdivideElement_appends staged e new_nodes acc)
            as (_ & children & Hout & _ & Hch).
          destruct (subdivideElement staged e new_nodes acc) as [ok mid]. simpl in Hout.
          destruct ok; simpl; [|done]. apply Hrest. exists children. split; [done|].
          eapply Forall_impl; [exact Hch|]. by intros c [? _].
        * apply Hrest. by apply appended_one.
      + destruct (_ && _)%N.
        * destruct (reduceElement _ _ _ _ _ _ _) as [mid|] eqn:Hred; [|done].
          apply Hrest.
          apply reduceElement_conserved in Hred.
          eapply appended_impl; [|exact Hred]. by intros c [? _].
        * apply Hrest. apply appended_refl. }
  apply Hc in Hloop as (added & Heq & Hall). simpl in Heq. by subst.
Qed.

(** X11.  If the floor is a dimension (at most 3), every element of a mesh
    that [simplifyMesh] returns has at least the dimension of the floor. *)
Theorem simplifyMesh_respects_floor (_mesh : Mesh) (new_mesh_name : string) (eps : Z)
    (m after : Mesh) :
  (min_elem_dim <= 3)%N ->
  simplifyMesh indeterminate grid _mesh new_mesh_name eps min_elem_dim = Ok (Some m, after) ->
  Forall (fun c => (min_elem_dim <= getDimension c)%N) (getElements m).
Proof.
  intros Hfloor. unfold simplifyMesh. destruct (getNElements _mesh =? 0); [done|].
  destruct (constructNewNodesArray _ _) as [staged new_nodes].
  destruct (simplifyElements _ _ _ _ _ _) as [out| |] eqn:Hloop; [|done..].
  destruct out as [|o out]; [done|]. intros [= <- _]. simpl.
  apply simplifyElements_conserved in Hloop as (added & Heq & Hall). simpl in Heq. subst.
  eapply Forall_impl; [exact Hall|]. intros c (e & _ & _ & Hdim). by apply Hdim.
Qed.

End MeshConservation.

Lemma simplifyMesh_conserves_material_witness :
  Forall (fun c => exists e, In e (getElements lineAndTriangle) /\ getValue c = getValue e)
         [Tri [1; 2; 3] 8%N].
Proof.
  apply (simplifyMesh_conserves_material (geometry := latticeGeometry) (0, 0, 0, 0)%N 1%N
           singleCellGrid lineAndTriangle "out" 1
           (mkMesh "out" (newNodes singleCellGrid lineAndTriangle 1) [Tri [1; 2; 3] 8%N])
           lineAndTriangle).
  vm_compute. reflexivity.
Defined.

Lemma simplifyMesh_respects_floor_witness :
  Forall (fun c => (1 <= getDimension c)%N) [Tri [1; 2; 3] 8%N].
Proof.
  apply (simplifyMesh_respects_floor (geometry := latticeGeometry) (0, 0, 0, 0)%N 1%N
           singleCellGrid lineAndTriangle "out" 1
           (mkMesh "out" (newNodes singleCellGrid lineAndTriangle 1) [Tri [1; 2; 3] 8%N])
           lineAndTriangle).
  - lia.
  - vm_compute. reflexivity.
Defined.

(** ** The count of [getNUniqueNodes] *)

Lemma existsb_eqb_elem {A} (f : A -> nat) (x : nat) (l : list A) :
  existsb (fun j => x =? f j) l = bool_decide (x ∈ map f l).
Proof.
  induction l as [|y l IH]; simpl; [done|].
  rewrite IH. destruct (Nat.eqb_spec x (f y)) as [->|Hne]; simpl.
  - symmetry. apply bool_decide_eq_true. left.
  - apply bool_decide_ext. rewrite elem_of_cons. tauto.
Qed.

Lemma length_remove_dups_cons (x : nat) (l : list nat) :
  length (remove_dups (x :: l))
  = if bool_decide (x ∈ l) then length (remove_dups l) else S (length (remove_dups l)).
Proof. simpl. unfold bool_decide. by destruct (decide_rel elem_of x l). Qed.

Lemma length_remove_dups_le (l : list nat) : length (remove_dups l) <= length l.
Proof.
  induction l as [|x l IH]; [done|]. rewrite length_remove_dups_cons. simpl.
  destruct (bool_decide _); lia.
Qed.

Lemma length_remove_dups_NoDup (l : list nat) :
  NoDup l -> length (remove_dups l) = length l.
Proof.
  induction 1 as [|x l Hx Hl IH]; [done|]. rewrite length_remove_dups_cons.
  rewrite bool_decide_eq_false_2 by done. simpl. by rewrite IH.
Qed.

(** The loop of [getNUniqueNodes] over the local indices [a .. a + len - 2] of
    an element of [a + len] nodes takes from the count the number of
    identifiers that recur later. *)
Lemma unique_loop (id : unsigned -> nat) (n len : nat) : forall (a : nat) (count : unsigned),
  a + len = n ->
  fold_left
    (fun count i =>
       if existsb (fun j => id i =? id j) (rangeN (i + 1) (N.of_nat n))
       then (count - 1)%N else count)
    (map N.of_nat (seq a (len - 1))) count
  = (count - N.of_nat (len - length (remove_dups (map id (map N.of_nat (seq a len))))))%N.
Proof.
  induction len as [|len IH]; intros a count Hn; [simpl; lia|].
  destruct len as [|len].
  - simpl. lia.
  - replace (S (S len) - 1) with (S len) by lia.
    change (seq a (S (S len))) with (a :: seq (S a) (S len)).
    change (seq a (S len)) with (a :: seq (S a) len).
    cbn [map fold_left].
    replace (seq (S a) len) with (seq (S a) (S len - 1)) by (f_equal; lia).
    rewrite IH by lia.
    rewrite length_remove_dups_cons.
    replace (rangeN (N.of_nat a + 1) (N.of_nat n))
      with (map N.of_nat (seq (S a) (S len))).
    2:{ unfold rangeN. do 2 f_equal; lia. }
    rewrite <- existsb_eqb_elem.
    pose proof (length_remove_dups_le (map id (map N.of_nat (seq (S a) (S len))))) as Hle.
    rewrite !length_map, length_seq in Hle.
    set (L := length (remove_dups _)) in *. clearbody L.
    destruct (existsb _ _); lia.
Qed.

Lemma getNNodes_pos (e : Element) : (2 <= getNNodes e)%N.
Proof. unfold getNNodes. destruct (getGeomType e); lia. Qed.

Lemma length_elementIDs (st : list Node) (e : Element) :
  length (elementIDs st e) = N.to_nat (getNNodes e).
Proof. unfold elementIDs. rewrite length_map, length_rangeN. lia. Qed.

Lemma getNUniqueNodes_loop (st : list Node) (element : Element) :
  getNUniqueNodes st element
  = (getNNodes element
     - N.of_nat (length (elementIDs st element)
                 - length (remove_dups (elementIDs st element))))%N.
Proof.
  rewrite length_elementIDs. unfold getNUniqueNodes, elementIDs.
  pose proof (getNNodes_pos element) as Hpos.
  set (n := N.to_nat (getNNodes element)).
  replace (getNNodes element) with (N.of_nat n) by lia.
  rewrite (rangeN_of_nat n).
  replace (rangeN 0 (N.of_nat n - 1)) with (map N.of_nat (seq 0 (n - 1))).
  2:{ unfold rangeN. do 2 f_equal. lia. }
  by rewrite (unique_loop (nodeID st element) n n 0) by lia.
Qed.

Lemma getNUniqueNodes_count (st : list Node) (element : Element) :
  getNUniqueNodes st element = N.of_nat (length (remove_dups (elementIDs st element))).
Proof.
  rewrite getNUniqueNodes_loop.
  pose proof (length_remove_dups_le (elementIDs st element)) as Hle.
  pose proof (length_elementIDs st element) as Hlen. lia.
Qed.

(** An element whose nodes have pairwise distinct identifiers has not
    collapsed. *)
Lemma getNUniqueNodes_NoDup (st : list Node) (e : Element) :
  NoDup (elementIDs st e) -> getNUniqueNodes st e = getNNodes e.
Proof.
  intros Hnd. rewrite getNUniqueNodes_loop, length_remove_dups_NoDup by done. lia.
Qed.

Lemma NoDup_length_remove_dups (l : list nat) :
  length (remove_dups l) = length l -> NoDup l.
Proof.
  induction l as [|x l IH]; [constructor|]. rewrite length_remove_dups_cons.
  pose proof (length_remove_dups_le l) as Hle. simpl.
  destruct (bool_decide (x ∈ l)) eqn:Hx; [lia|].
  intros [= Hlen]. constructor; [|by apply IH].
  by apply bool_decide_eq_false in Hx.
Qed.

(** X12.  [getNUniqueNodes] is the number of distinct identifiers among the
    nodes of the element; it is the number of nodes exactly if the
    identifiers are pairwise distinct. *)
Theorem getNUniqueNodes_distinct (st : list Node) (element : Element) :
  getNUniqueNodes st element = N.of_nat (length (remove_dups (elementIDs st element))) /\
  (getNUniqueNodes st element = getNNodes element <-> NoDup (elementIDs st element)).
Proof.
  split; [apply getNUniqueNodes_count|]. split; [|apply getNUniqueNodes_NoDup].
  rewrite getNUniqueNodes_count. intros Hn. apply NoDup_length_remove_dups.
  rewrite length_elementIDs. lia.
Qed.

(** ** A mesh that needs no revision *)

(** With the identity as collapse map, no identifier is changed and the new
    vector is the vector of the mesh. *)
Lemma construct_identity (nodes : list Node) (k : nat) :
  dense_ids nodes -> k <= length nodes ->
  fold_left (construct_step (seq 0 (length nodes))) (seq 0 k) (nodes, [])
  = (nodes, take k nodes).
Proof.
  intros Hdense. induction k as [|k IH]; intros Hk; [done|].
  rewrite seq_S, fold_left_app, IH by lia. cbn [fold_left construct_step Nat.add].
  rewrite (list_lookup_total_correct (seq 0 (length nodes)) k k) by (apply lookup_seq; lia).
  destruct (lookup_lt_is_Some_2 nodes k) as [nd Hnd]; [lia|].
  pose proof (dense_ids_lookup nodes k Hdense ltac:(lia)) as Hid.
  rewrite (list_lookup_total_correct _ _ _ Hnd) in *.
  rewrite Hid, Nat.eqb_refl, length_take, Nat.min_l by lia.
  assert (Hsame : setID k nd = nd) by (destruct nd; simpl in *; by subst).
  assert (Hcopy : mkNode (getCoords nd) k = nd) by (destruct nd; simpl in *; by subst).
  rewrite Hsame, Hcopy, list_insert_id by done.
  by rewrite (take_S_r _ _ _ Hnd).
Qed.

Lemma constructNewNodesArray_identity (nodes : list Node) :
  dense_ids nodes ->
  constructNewNodesArray (seq 0 (length nodes)) nodes = (nodes, nodes).
Proof.
  intros Hdense. unfold constructNewNodesArray.
  rewrite construct_identity by done. by rewrite firstn_all.
Qed.

Section NoRevision.

Context {geometry : ElementGeometry}.
Variable indeterminate : array4.
Variable grid : GridQuery.

(** X13.  A mesh that needs no revision is returned as it is: if the collapse
    moves no node (as with the tolerance 0), and every element has pairwise
    distinct nodes of the mesh, at least the dimension of the floor and no
    flag for non-coplanar nodes, the result of [simplifyMesh] is the mesh
    under its new name, and the mesh of the revision is unchanged. *)
Theorem simplifyMesh_leaves_sound_mesh (_mesh : Mesh) (new_mesh_name : string) (eps : Z)
    (min_elem_dim : unsigned) :
  dense_ids (getNodes _mesh) ->
  collapseNodeIndeces grid (getNodes _mesh) eps = seq 0 (length (getNodes _mesh)) ->
  getElements _mesh <> [] ->
  Forall (fun e => element_in_mesh (length (getNodes _mesh)) e /\
                   NoDup (elemNodes e) /\
                   (min_elem_dim <= getDimension e)%N /\
                   NonCoplanar (validate (getNodes _mesh) e) = false)
         (getElements _mesh) ->
  simplifyMesh indeterminate grid _mesh new_mesh_name eps min_elem_dim
    = Ok (Some (mkMesh new_mesh_name (getNodes _mesh) (getElements _mesh)), _mesh).
Proof.
  intros Hdense Hid Hne Hsound. unfold simplifyMesh, getNElements.
  destruct (getElements _mesh) as [|e0 elements] eqn:Helems; [done|].
  cbn [length Nat.eqb]. rewrite Hid, constructNewNodesArray_identity by done.
  assert (forall els acc,
            Forall (fun e => element_in_mesh (length (getNodes _mesh)) e /\
                             NoDup (elemNodes e) /\
                             (min_elem_dim <= getDimension e)%N /\
                             NonCoplanar (validate (getNodes _mesh) e) = false) els ->
            simplifyElements indeterminate (getNodes _mesh) (getNodes _mesh) min_elem_dim
                             els acc
              = Finished (acc ++ els)) as Hloop.
  { induction els as [|e els IH]; intros acc Hs; [by rewrite app_nil_r|].
    apply Forall_cons in Hs as [(Hwf & Hnd & Hdim & Hflat) Hs].
    cbn [simplifyElements].
    rewrite getNUniqueNodes_NoDup by (by rewrite elementIDs_dense).
    rewrite N.eqb_refl, (proj2 (N.leb_le _ _) Hdim), Hflat. cbn [andb].
    rewrite copyElement_same by done. rewrite IH by done.
    by rewrite <- app_assoc. }
  rewrite Hloop by done. cbn [app].
  rewrite resetNodeIDs_restores with (nodes := getNodes _mesh) by done.
  by rewrite withNodes_same.
Qed.

End NoRevision.

Lemma simplifyMesh_leaves_sound_mesh_witness :
  simplifyMesh (geometry := latticeGeometry) (0, 0, 0, 0)%N singleCellGrid
               lineAndTriangle "out" 0 1%N
  = Ok (Some (mkMesh "out" (getNodes lineAndTriangle) (getElements lineAndTriangle)),
        lineAndTriangle).
Proof.
  apply (simplifyMesh_leaves_sound_mesh (geometry := latticeGeometry) (0, 0, 0, 0)%N
           singleCellGrid lineAndTriangle "out" 0 1%N).
  - reflexivity.
  - reflexivity.
  - discriminate.
  - repeat first [ apply Forall_cons | apply Forall_nil | split ];
      try reflexivity; try (simpl; lia); try (by apply (bool_decide_unpack _));
      repeat constructor.
Defined.

(** ** The assertions of [constructLine] and [constructTri] *)



Lemma in_rangeN (a b i : unsigned) : In i (rangeN a b) <-> (a <= i < b)%N.
Proof.
  unfold rangeN. rewrite in_map_iff. split.
  - intros (m & <- & Hm). apply in_seq in Hm. lia.
  - intros Hi. exists (N.to_nat i). split; [lia|]. apply in_seq. lia.
Qed.




Section Consistent.

Variables (st nodes : list Node) (e : Element).

(** The staged identifiers of the element are positions of the new vector,
    whose nodes carry their position as identifier. *)
Hypothesis consistent :
  forall i, (i < getNNodes e)%N -> getID (nodes !!! nodeID st e i) = nodeID st e i.


End Consistent.

(** ** The reduction never trips an assertion *)

Section ReductionTotal.

Context {geometry : ElementGeometry}.
Variable indeterminate : array4.
Variables (st nodes : list Node) (min_elem_dim : unsigned).



Variable e : Element.

Hypothesis consistent :
  forall i, (i < getNNodes e)%N -> getID (nodes !!! nodeID st e i) = nodeID st e i.

Hypothesis collapsed : (1 < getNUniqueNodes st e)%N.







End ReductionTotal.

Section NoAssertion.

Context {geometry : ElementGeometry}.
Variable indeterminate : array4.
Variable grid : GridQuery.



End NoAssertion.


(** ** Single reductions *)



Section SingleReductions.

Context {geometry : ElementGeometry}.
Variable indeterminate : array4.
Variables (st nodes : list Node).


(** X16.  A quadrilateral whose diametral nodes 0 and 2 are collapsed is
    reduced to a triangle that holds the collapsed node twice: the third
    node of [constructTri] is only compared with the second.  The fourth
    node of the quadrilateral is in no new element. *)
Theorem reduceElement_quad_diagonal (element : Element) (elements : list Element)
    (min_elem_dim : unsigned) :
  getGeomType element = QUAD ->
  (forall i, (i < 4)%N ->
     getID (nodes !!! nodeID st element i) = nodeID st element i) ->
  nodeID st element 2%N = nodeID st element 0%N ->
  nodeID st element 1%N <> nodeID st element 0%N ->
  nodeID st element 3%N <> nodeID st element 0%N ->
  nodeID st element 3%N <> nodeID st element 1%N ->
  (min_elem_dim < 3)%N ->
  getNUniqueNodes st element = 3%N /\
  reduceElement indeterminate st element (getNUniqueNodes st element) nodes elements
                min_elem_dim
  = Ok (elements ++ [Tri [nodeID st element 0%N; nodeID st element 1%N;
                          nodeID st element 0%N] (getValue element)]).
Proof.
  intros Hquad Hcons H20 H10 H30 H31 Hmin.
  assert (Hn : getNUniqueNodes st element = 3%N).
  { unfold getNUniqueNodes, getNNodes. rewrite Hquad.
    change (rangeN 0 (4 - 1)) with [0; 1; 2]%N. cbn [fold_left].
    change (rangeN (0 + 1) 4) with [1; 2; 3]%N. change (rangeN (1 + 1) 4) with [2; 3]%N.
    change (rangeN (2 + 1) 4) with [3]%N. cbn [existsb]. rewrite H20.
    apply Nat.eqb_neq in H10, H30, H31.
    rewrite Nat.eqb_refl, H10, (Nat.eqb_sym (nodeID st element 1%N)), H31.
    rewrite (Nat.eqb_sym (nodeID st element 0%N) (nodeID st element 3%N)), H30.
    rewrite (Nat.eqb_sym (nodeID st element 0%N) (nodeID st element 1%N)), H10.
    reflexivity. }
  split; [done|]. rewrite Hn. unfold reduceElement. rewrite Hquad.
  cbn [N.eqb Pos.eqb andb]. rewrite (proj2 (N.ltb_lt _ _) Hmin).
  unfold constructTri, getNNodes, ptr. rewrite Hquad.
  change (rangeN 1 4) with [1; 2; 3]%N. cbn [first_some].
  rewrite !Hcons by lia.
  apply Nat.eqb_neq in H10. rewrite H10. cbn [negb].
  change (rangeN (1 + 1) 4) with [2; 3]%N. cbn [find]. rewrite H20.
  rewrite Nat.eqb_sym, H10. cbn [negb]. cbv beta iota. rewrite H20. reflexivity.
Qed.

End SingleReductions.


Lemma reduceElement_quad_diagonal_witness :
  getNUniqueNodes diagonalQuadStaged (Quad [0; 1; 2; 3] 5%N) = 3%N /\
  reduceElement (geometry := latticeGeometry) (0, 0, 0, 0)%N diagonalQuadStaged
                (Quad [0; 1; 2; 3] 5%N)
                (getNUniqueNodes diagonalQuadStaged (Quad [0; 1; 2; 3] 5%N))
                diagonalQuadNodes [] 1%N
  = Ok ([] ++ [Tri [nodeID diagonalQuadStaged (Quad [0; 1; 2; 3] 5%N) 0%N;
                    nodeID diagonalQuadStaged (Quad [0; 1; 2; 3] 5%N) 1%N;
                    nodeID diagonalQuadStaged (Quad [0; 1; 2; 3] 5%N) 0%N]
                   (getValue (Quad [0; 1; 2; 3] 5%N))]).
Proof.
  apply (reduceElement_quad_diagonal (geometry := latticeGeometry) (0, 0, 0, 0)%N
           diagonalQuadStaged diagonalQuadNodes (Quad [0; 1; 2; 3] 5%N) [] 1%N).
  - reflexivity.
  - intros i Hi. index_cases i; try lia; reflexivity.
  - reflexivity.
  - vm_compute. discriminate.
  - vm_compute. discriminate.
  - vm_compute. discriminate.
  - lia.
Defined.

(** ** The lookup tables of the hexahedron *)

(** X17.  The table of diametral nodes is an involution without fixed point
    on the eight local indices, and a node shares neither an edge nor a face
    with its diametral node. *)
Theorem lutHexDiametralNode_involution (id : unsigned) :
  (id < 8)%N ->
  lutHexDiametralNode (lutHexDiametralNode id) = id /\
  lutHexDiametralNode id <> id /\
  (lutHexDiametralNode id < 8)%N /\
  hexAdjacent id (lutHexDiametralNode id) = false /\
  Forall (fun face => ~ (In id face /\ In (lutHexDiametralNode id) face)) hexFaces.
Proof.
  intros Hid. index_cases id; try lia;
    (split; [reflexivity|]); (split; [by vm_compute|]); (split; [by vm_compute|]);
    (split; [reflexivity|]);
    repeat first [ apply List.Forall_nil | apply List.Forall_cons ];
    intros [H1 H2]; vm_compute in H1, H2; intuition discriminate.
Qed.

(** X18.  For the two nodes of an edge, in either order, the table gives a
    cutting plane through two further edges of the hexahedron: an edge and
    its diametral edge, which together with the given edge and the edge
    diametral to it make up the eight corners. *)
Theorem lutHexCuttingQuadNodes_plane (nodes : array4) (id1 id2 : unsigned) :
  hexAdjacent id1 id2 = true ->
  let base := lutHexCuttingQuadNodes nodes id1 id2 in
  arr base 2 = lutHexDiametralNode (arr base 0) /\
  arr base 3 = lutHexDiametralNode (arr base 1) /\
  hexAdjacent (arr base 0) (arr base 1) = true /\
  hexAdjacent (arr base 2) (arr base 3) = true /\
  NoDup [arr base 0; arr base 1; arr base 2; arr base 3;
         id1; id2; lutHexDiametralNode id1; lutHexDiametralNode id2] /\
  Forall (fun i => (i < 8)%N) [arr base 0; arr base 1; arr base 2; arr base 3].
Proof.
  unfold hexAdjacent at 1. unfold hexEdges.
  index_cases id1; index_cases id2;
    try (by vm_compute);
    try (intros _; repeat split; try reflexivity;
         first [ by apply (bool_decide_unpack _) | repeat constructor; by vm_compute ]);
    cbn [existsb]; eqb_false; rewrite ?andb_false_r; simpl; done.
Qed.

Lemma lutHexDiametralNode_involution_witness :
  lutHexDiametralNode (lutHexDiametralNode 3) = 3%N /\
  lutHexDiametralNode 3 <> 3%N /\
  (lutHexDiametralNode 3 < 8)%N /\
  hexAdjacent 3 (lutHexDiametralNode 3) = false /\
  Forall (fun face => ~ (In 3%N face /\ In (lutHexDiametralNode 3) face)) hexFaces.
Proof. apply (lutHexDiametralNode_involution 3). lia. Defined.

Lemma lutHexCuttingQuadNodes_plane_witness :
  let base := lutHexCuttingQuadNodes (0, 0, 0, 0)%N 0 1 in
  arr base 2 = lutHexDiametralNode (arr base 0) /\
  arr base 3 = lutHexDiametralNode (arr base 1) /\
  hexAdjacent (arr base 0) (arr base 1) = true /\
  hexAdjacent (arr base 2) (arr base 3) = true /\
  NoDup [arr base 0; arr base 1; arr base 2; arr base 3;
         0%N; 1%N; lutHexDiametralNode 0; lutHexDiametralNode 1] /\
  Forall (fun i => (i < 8)%N) [arr base 0; arr base 1; arr base 2; arr base 3].
Proof. apply (lutHexCuttingQuadNodes_plane (0, 0, 0, 0)%N 0 1). reflexivity. Defined.

(** ** The prism *)

Module TemplatePrismFacts.

Import TemplatePrism.

(** X19.  [isEdge] holds exactly for two different nodes of the prism that
    lie on the same triangle or at the same position of the two triangles;
    in particular it is symmetric and false beyond the six nodes. *)
Theorem isEdge_characterised (idx1 idx2 : unsigned) :
  isEdge idx1 idx2
  = ((idx1 <? 6) && (idx2 <? 6) && negb (idx1 =? idx2)
     && ((idx1 / 3 =? idx2 / 3) || (idx1 mod 3 =? idx2 mod 3)))%N /\
  isEdge idx1 idx2 = isEdge idx2 idx1.
Proof.
  unfold isEdge, _edge_nodes.
  index_cases idx1; index_cases idx2; try (by vm_compute).
  all: cbn [existsb]; eqb_false; rewrite ?andb_false_r, ?andb_false_l; simpl.
  all: try (split; [|reflexivity]).
  all: try reflexivity.
  all: repeat match goal with
       | |- context [(?a <? 6)%N] =>
           first [ rewrite (proj2 (N.ltb_ge a 6)) by lia
                 | change (a <? 6)%N with true ]
       end; simpl; rewrite ?andb_false_r; try reflexivity.
Qed.

Lemma find_ext_in {A} (f g : A -> bool) (l : list A) :
  (forall x, In x l -> f x = g x) -> find f l = find g l.
Proof.
  induction l as [|x l IH]; intros H; simpl; [done|].
  rewrite (H x) by (by left). rewrite IH; [done|]. intros y Hy. apply H. by right.
Qed.

Lemma at_index_map {A B} (f : A -> B) (d : A) (d' : B) (l : list A) (i : unsigned) :
  N.to_nat i < length l -> at_index d' (map f l) i = f (at_index d l i).
Proof.
  intros Hi. destruct (lookup_lt_is_Some_2 l (N.to_nat i) Hi) as [x Hx].
  rewrite (at_index_lookup d l i x Hx).
  apply at_index_lookup. by rewrite list_lookup_fmap, Hx.
Qed.

Lemma face_node_range (i j : unsigned) :
  (i < 5)%N -> (j < 4)%N -> face_node i j = 99%N \/ (face_node i j < 6)%N.
Proof.
  intros Hi Hj. index_cases i; try lia; index_cases j; try lia;
    first [ by left | right; by vm_compute ].
Qed.

Section RoundTrip.

Variable prism : Element.
Hypothesis six_nodes : length (elemNodes prism) = 6.
Hypothesis different : NoDup (elemNodes prism).

Lemma getNode_injective (p q : unsigned) :
  (p < 6)%N -> (q < 6)%N -> (getNode prism p =? getNode prism q) = (p =? q)%N.
Proof.
  intros Hp Hq. unfold getNode.
  destruct (lookup_lt_is_Some_2 (elemNodes prism) (N.to_nat p)) as [x Hx]; [lia|].
  destruct (lookup_lt_is_Some_2 (elemNodes prism) (N.to_nat q)) as [y Hy]; [lia|].
  rewrite (at_index_lookup _ _ _ _ Hx), (at_index_lookup _ _ _ _ Hy).
  destruct (N.eqb_spec p q) as [->|Hne].
  - rewrite Hx in Hy. injection Hy as ->. apply Nat.eqb_refl.
  - apply Nat.eqb_neq. intros ->. apply Hne.
    pose proof (NoDup_lookup _ _ _ _ different Hx Hy). lia.
Qed.

(** On the nodes of three local indices the search is the search on the
    indices. *)
Lemma identifyFace_indices (indices : list unsigned) :
  length indices = 3 -> Forall (fun p => (p < 6)%N) indices ->
  identifyFace prism (map (getNode prism) indices) = identifyFaceIndices indices.
Proof.
  intros Hlen Hall. unfold identifyFace, identifyFaceIndices.
  erewrite find_ext_in; [reflexivity|].
  intros i Hi. apply in_rangeN in Hi. cbv beta. f_equal.
  apply fold_left_ext_in. intros flag [j k] Hjk.
  apply list_elem_of_In, in_flat_map in Hjk as (j' & Hj & Hk).
  apply in_map_iff in Hk as (k' & [= <- <-] & Hk).
  apply in_rangeN in Hj, Hk.
  destruct (face_node_range i j' ltac:(lia) ltac:(lia)) as [->|Hrange]; [done|].
  rewrite (at_index_map (getNode prism) 0%N) by lia.
  rewrite getNode_injective; [done..|].
  destruct (lookup_lt_is_Some_2 indices (N.to_nat k')) as [p Hp]; [lia|].
  rewrite (at_index_lookup _ _ _ _ Hp).
  rewrite Forall_forall in Hall. apply Hall. by eapply list_elem_of_lookup_2.
Qed.

(** X20.  For a prism with six different nodes, [identifyFace] finds every
    face again from the first three nodes that [getFace] gives it; beyond
    the five faces [getFace] returns the null pointer. *)
Theorem identifyFace_getFace (i : unsigned) :
  if (i <? 5)%N then
    exists face, getFace prism i = Some face /\
                 length (elemNodes face) = N.to_nat (getNFaceNodes i) /\
                 identifyFace prism (take 3 (elemNodes face)) = i
  else getFace prism i = None.
Proof.
  destruct (i <? 5)%N eqn:Hi.
  - apply N.ltb_lt in Hi.
    assert (Hfaces : forall indices, length indices = 3 ->
              Forall (fun p => (p < 6)%N) indices ->
              identifyFaceIndices indices = i ->
              identifyFace prism (map (getNode prism) indices) = i).
    { intros indices Hlen Hall <-. by apply identifyFace_indices. }
    index_cases i; try lia; (eexists; split; [reflexivity|]; split; [reflexivity|]).
    + apply (Hfaces [0; 2; 1]%N); [done|repeat constructor; lia|reflexivity].
    + apply (Hfaces [0; 1; 4]%N); [done|repeat constructor; lia|reflexivity].
    + apply (Hfaces [1; 2; 5]%N); [done|repeat constructor; lia|reflexivity].
    + apply (Hfaces [2; 0; 3]%N); [done|repeat constructor; lia|reflexivity].
    + apply (Hfaces [3; 4; 5]%N); [done|repeat constructor; lia|reflexivity].
  - unfold getFace, getNFaces. change (5 : unsigned) with 5%N. by rewrite Hi.
Qed.

End RoundTrip.

(** X21.  [validate] reports for a prism the flags of its three
    quadrilateral faces, except the node order: what the faces say about it
    is overwritten by the test of the prism itself. *)
Theorem validate_flags (quad_validate : Element -> ElementErrorCode)
    (hasZeroVolume testElementNodeOrder : bool) (prism : Element) :
  let face i := Quad (map (fun j => getNode prism (face_node i j)) [0; 1; 2; 3]%N) 0%N in
  let flags i := quad_validate (face i) in
  let error_code := validate quad_validate hasZeroVolume testElementNodeOrder prism in
  getFace prism 1 = Some (face 1%N) /\ getFace prism 2 = Some (face 2%N) /\
  getFace prism 3 = Some (face 3%N) /\
  ZeroVolume error_code
    = hasZeroVolume || ZeroVolume (flags 1%N) || ZeroVolume (flags 2%N)
      || ZeroVolume (flags 3%N) /\
  NonCoplanar error_code
    = NonCoplanar (flags 1%N) || NonCoplanar (flags 2%N) || NonCoplanar (flags 3%N) /\
  NonConvex error_code
    = NonConvex (flags 1%N) || NonConvex (flags 2%N) || NonConvex (flags 3%N) /\
  NodeOrder error_code = negb testElementNodeOrder.
Proof.
  intros face flags error_code. subst error_code. unfold validate.
  change (rangeN 1 4) with [1; 2; 3]%N. cbn [fold_left].
  change (getFace prism 1) with (Some (face 1%N)).
  change (getFace prism 2) with (Some (face 2%N)).
  change (getFace prism 3) with (Some (face 3%N)).
  cbn [getGeomType face Quad MeshElemType_eqb].
  fold (flags 1%N) (flags 2%N) (flags 3%N).
  repeat split.
Qed.

End TemplatePrismFacts.

Lemma identifyFace_getFace_witness :
  exists face, TemplatePrism.getFace (Prism [10; 11; 12; 13; 14; 15] 1%N) 2 = Some face /\
    length (elemNodes face) = N.to_nat (TemplatePrism.getNFaceNodes 2) /\
    TemplatePrism.identifyFace (Prism [10; 11; 12; 13; 14; 15] 1%N) (take 3 (elemNodes face))
    = 2%N.
Proof.
  apply (TemplatePrismFacts.identifyFace_getFace (Prism [10; 11; 12; 13; 14; 15] 1%N)
           eq_refl ltac:(by apply (bool_decide_unpack _)) 2).
Defined.
